(** * tornado_middleware: the continuation adapter and the middleware pipeline

    A shallow embedding of [tornado_middleware/decorators.py] and
    [tornado_middleware/middleware_request.py].

    Python code that mutates the request handler and may raise is embedded
    in a state-and-exception monad over the handler object.  Everything the
    outside world can observe (a transport call, a hook, a stage being
    entered, a completion callback firing) is appended to a log kept in the
    handler state, so that ordering and counting properties become
    properties of lists.

    The tornado library is not part of the package.  What the package uses
    of it ([gen.Runner], [gen.Task], [stack_context.ExceptionStackContext]
    and the [RequestHandler] base class) is modelled by its effect on the
    handler and on the log.  A [yield Task(f, ...)] is modelled at the
    point where the yielding generator goes on: [f] runs, its callback
    resumes the generator, and an exception raised by the call of [f] is
    thrown into the generator at the [yield].

    One request is followed from its start to its end, so the event loop
    is present only through what it changes for that request: a generator
    that yields on something not yet ready is resumed later by the event
    loop, and from then on an exception that leaves it has no calling
    frame to go to; it is handed to the stack contexts that were in force
    when the generator suspended.  A function that is waited for and never
    calls back leaves the waiting generator suspended for good.  Real time
    and the interleaving with other requests are not modelled. *)

From Stdlib Require Import String.
From stdpp Require Import base option list strings.

Local Open Scope string_scope.
Local Open Scope list_scope.

(** ** Exceptions *)

(** [InterruptRequest] is [middleware_request.InterruptRequest]; [HTTPError]
    is [tornado.web.HTTPError]; [AssertionError] is what a failed [assert]
    raises and [TypeError] what a call raises whose arguments do not fit
    the signature; [Exception] stands for any other exception class. *)
Inductive exn : Type :=
  | InterruptRequest
  | HTTPError (status_code : nat)
  | AssertionError
  | TypeError
  | Exception (msg : string).

Definition is_InterruptRequest (e : exn) : bool :=
  match e with InterruptRequest => true | _ => false end.

(** ** Observable events *)

Inductive stage : Type := before | after | after_finish.

(** What a [Task] of the pipeline runs: a stage method of a middleware, or
    the action method. *)
Inductive task_id : Type :=
  | StageOf (s : stage) (mw : string)
  | ActionOf (meth : string).

(** The positional and keyword arguments of a call, a Python [a, kw] pair. *)
Definition call_args : Type := list string * list (string * string).

Inductive event : Type :=
  | EvCheckXsrf                                   (* self.check_xsrf_cookie() *)
  | EvPrepare                                     (* self.prepare() entered *)
  | EvDecode (raw : string) (name : option string) (* self.decode_argument *)
  | EvConstruct (mw : string)                     (* middle_class(self) *)
  | EvStage (s : stage) (mw : string)             (* a stage method called *)
  | EvAction (meth : string) (args : call_args)   (* get/post/... called *)
  | EvRedirectCall (args : call_args)             (* self.redirect called *)
  | EvSuperRedirect (args : call_args)            (* RequestHandler.redirect *)
  | EvSuperFinish                                 (* RequestHandler.finish *)
  | EvDeactivate                                  (* deactivate() in _done *)
  | EvCallback (tag : string)                     (* a completion callback *)
  | EvResume (t : task_id)          (* the callback of a Task: resume *)
  | EvHandleException (e : exn)       (* _stack_context_handle_exception *)
  | EvWrite (chunk : string).                     (* any other user effect *)

(** ** Application code

    What the body of a stage method, of an action method or of [prepare]
    can do to the handler it is bound to: call the handler's public
    operations, produce some other visible effect, or raise.  The handler
    operations are defined below, from [MiddlewareRequestHandler]. *)
Inductive cmd : Type :=
  | CallRedirect (args : call_args)   (* self.redirect(...) *)
  | CallFinish                        (* self.finish() *)
  | CallDoFinish                      (* self.do_finish() *)
  | DoWrite (chunk : string)          (* some other visible effect *)
  | DoRaise (e : exn).                (* raise e *)

(** A function is written either as a plain function or as a generator
    (its body then runs when the generator is driven).  A plain function
    may end in [return v] for a [v] that is not [None]. *)
Inductive style : Type := Plain | Suspending.

(** What a function does with a [callback] keyword argument when it is
    called as it is written, not through [callback_engine]: its signature
    has no place for it, or it takes it and never calls it, or it takes it
    and calls it (at once or later). *)
Inductive callback_use : Type :=
  | NoCallbackParameter
  | CallbackIgnored
  | CallbackCalled.

(** [c_suspends_after] tells where a generator first yields on something
    that is not ready yet, so that the event loop has to resume it: after
    that many commands of its body ([None] when every yield point is ready
    at once).  A plain function has no yield. *)
Record callable : Type := Callable {
  c_style : style;
  c_body : list cmd;
  c_returns_value : bool;
  c_suspends_after : option nat;
  c_callback : callback_use
}.

Definition plain (body : list cmd) : callable :=
  {| c_style := Plain; c_body := body; c_returns_value := false;
     c_suspends_after := None; c_callback := NoCallbackParameter |}.

Definition suspending (body : list cmd) : callable :=
  {| c_style := Suspending; c_body := body; c_returns_value := false;
     c_suspends_after := None; c_callback := NoCallbackParameter |}.

(** A generator that waits for the event loop after [n] commands. *)
Definition waiting (n : nat) (body : list cmd) : callable :=
  {| c_style := Suspending; c_body := body; c_returns_value := false;
     c_suspends_after := Some n; c_callback := NoCallbackParameter |}.

(** A function as it is found under a name of a class: wrapped by
    [callback_engine], or left as it was written. *)
Inductive function : Type :=
  | Engine (f : callable)
  | Bare (f : callable).

(** A middleware class: its name and its three stage methods
    ([Middleware.before], [.after], [.after_finish], or their overrides).
    An instance [middle_class(self)] only stores the handler, so it is
    represented by its class. *)
Record middleware_class : Type := MiddlewareClass {
  mw_name : string;
  mw_before : callable;
  mw_after : callable;
  mw_after_finish : callable
}.

Definition stage_method (s : stage) (m : middleware_class) : callable :=
  match s with
  | before => mw_before m
  | after => mw_after m
  | after_finish => mw_after_finish m
  end.

(** ** The handler object

    The attributes set by [MiddlewareRequestHandler.__init__], the
    [_finished] and [_headers_written] flags of the tornado base class,
    and the log.  The local variable [executed_middleware] of the running
    [_execute] frame is kept next to them: it is written inside the [try]
    block and read after it.  One frame is kept: a second call of
    [_execute] on the same handler is a call made after the first, on the
    state the first one left. *)
Record handler : Type := Handler {
  _called_once : bool;
  _redirection : option call_args;
  _cached_args : option call_args;
  _finished : bool;
  _headers_written : bool;
  executed_middleware : list middleware_class;
  log : list event
}.

(** [MiddlewareRequestHandler.__init__] *)
Definition __init__ : handler :=
  {| _called_once := false; _redirection := None; _cached_args := None;
     _finished := false; _headers_written := false;
     executed_middleware := []; log := [] |}.

Definition set_called_once (b : bool) (h : handler) : handler :=
  {| _called_once := b; _redirection := _redirection h;
     _cached_args := _cached_args h; _finished := _finished h;
     _headers_written := _headers_written h;
     executed_middleware := executed_middleware h; log := log h |}.

Definition set_redirection (r : option call_args) (h : handler) : handler :=
  {| _called_once := _called_once h; _redirection := r;
     _cached_args := _cached_args h; _finished := _finished h;
     _headers_written := _headers_written h;
     executed_middleware := executed_middleware h; log := log h |}.

Definition set_cached_args (c : option call_args) (h : handler) : handler :=
  {| _called_once := _called_once h; _redirection := _redirection h;
     _cached_args := c; _finished := _finished h;
     _headers_written := _headers_written h;
     executed_middleware := executed_middleware h; log := log h |}.

Definition set_finished (b : bool) (h : handler) : handler :=
  {| _called_once := _called_once h; _redirection := _redirection h;
     _cached_args := _cached_args h; _finished := b;
     _headers_written := _headers_written h;
     executed_middleware := executed_middleware h; log := log h |}.

Definition set_headers_written (b : bool) (h : handler) : handler :=
  {| _called_once := _called_once h; _redirection := _redirection h;
     _cached_args := _cached_args h; _finished := _finished h;
     _headers_written := b;
     executed_middleware := executed_middleware h; log := log h |}.

Definition set_executed_middleware (l : list middleware_class) (h : handler)
    : handler :=
  {| _called_once := _called_once h; _redirection := _redirection h;
     _cached_args := _cached_args h; _finished := _finished h;
     _headers_written := _headers_written h;
     executed_middleware := l; log := log h |}.

Definition add_log (e : event) (h : handler) : handler :=
  {| _called_once := _called_once h; _redirection := _redirection h;
     _cached_args := _cached_args h; _finished := _finished h;
     _headers_written := _headers_written h;
     executed_middleware := executed_middleware h; log := log h ++ [e] |}.

(** ** The monad of Python code running against a handler

    A computation returns a value or raises, and the mutations made so far
    stay (Python does not roll back).  Two more outcomes come from the
    event loop.  [Escaped e]: the exception [e] was raised in code that the
    event loop had resumed; the frames that were waiting for that code
    returned long ago, so no [try] statement of theirs sees it: it goes to
    the stack contexts in force when the code suspended.  [Stalled]: the
    code waits for a resumption that never comes. *)
Inductive outcome (A : Type) : Type :=
  | Returned (a : A)
  | Raised (e : exn)
  | Escaped (e : exn)
  | Stalled.
Arguments Returned {A} a.
Arguments Raised {A} e.
Arguments Escaped {A} e.
Arguments Stalled {A}.

Definition M (A : Type) : Type := handler -> outcome A * handler.

Definition ret {A} (a : A) : M A := fun h => (Returned a, h).

Definition raise {A} (e : exn) : M A := fun h => (Raised e, h).

Definition escape {A} (e : exn) : M A := fun h => (Escaped e, h).

Definition stall {A} : M A := fun h => (Stalled, h).

Definition bind {A B} (m : M A) (k : A -> M B) : M B :=
  fun h => match m h with
           | (Returned a, h') => k a h'
           | (Raised e, h') => (Raised e, h')
           | (Escaped e, h') => (Escaped e, h')
           | (Stalled, h') => (Stalled, h')
           end.

Definition modify (f : handler -> handler) : M unit :=
  fun h => (Returned tt, f h).

Definition get {A} (f : handler -> A) : M A := fun h => (Returned (f h), h).

Definition emit (e : event) : M unit := modify (add_log e).

(** [try: body except E: handler] for the exceptions selected by [catches];
    only an exception that travels up the frames is seen. *)
Definition try_except {A} (body : M A) (catches : exn -> bool)
    (on_exn : exn -> M A) : M A :=
  fun h => match body h with
           | (Raised e, h') =>
               if catches e then on_exn e h' else (Raised e, h')
           | r => r
           end.

(** Code that the event loop runs, as the callback of something that was
    waited for: an exception that leaves it escapes. *)
Definition from_event_loop {A} (m : M A) : M A :=
  fun h => match m h with
           | (Raised e, h') => (Escaped e, h')
           | r => r
           end.

(** The computations form a monad; stdpp's [x ← m; k] and [m ;; k]
    notations are used for sequencing. *)
#[global] Instance M_ret : MRet M := @ret.
#[global] Instance M_bind : MBind M := fun A B k m => bind m k.

(** A Python [for x in xs: body] loop. *)
Fixpoint for_each {A} (xs : list A) (body : A -> M unit) : M unit :=
  match xs with
  | [] => ret tt
  | x :: xs' => body x ;; for_each xs' body
  end.

(** ** decorators.py *)

(** A generator, given by what driving it does: [g_ready] up to its first
    yield point that is not ready (up to its end when there is none), and
    [g_resumed] from there to its end, once the event loop has resumed
    it. *)
Record generator : Type := Generator {
  g_ready : M unit;
  g_resumed : option (M unit)
}.

(** What a Python call hands back to [callback_engine.wrapper]: [None], a
    generator, or any other value. *)
Inductive py_value : Type :=
  | PyNone
  | PyGenerator (gen : generator)
  | PyOther.

(** [tornado.gen.Runner(gen, final_callback).run()]: the generator is
    resumed until it is exhausted, then the final callback is called; an
    exception that leaves the generator leaves [run] as well, and the final
    callback is not called.  When the generator has to wait, [run] returns
    and the event loop calls it again later: the rest of the generator and
    the final callback then run from the event loop. *)
Definition Runner_run (gen : generator) (final_callback : M unit) : M unit :=
  g_ready gen ;;
  match g_resumed gen with
  | None => final_callback
  | Some rest => from_event_loop (rest ;; final_callback)
  end.

(** [with ExceptionStackContext(exception_handler): body].  An exception
    that leaves the body is passed to the handler and is swallowed when the
    handler answers [True]: the code after the [with] block goes on.  An
    exception that escaped from code run by the event loop under this
    context is passed to the handler as well; when the handler answers
    [True] it is dealt with, and nothing resumes the code that was waiting
    under the context. *)
Definition ExceptionStackContext (exception_handler : exn -> M bool)
    (body : M unit) : M unit :=
  fun h => match body h with
           | (Raised e, h') =>
               (handled ← exception_handler e;
                if handled : bool then ret tt else raise e) h'
           | (Escaped e, h') =>
               (handled ← exception_handler e;
                if handled : bool then stall else escape e) h'
           | r => r
           end.

(** [handle_exception] inside [callback_engine.wrapper]: [False] while no
    runner exists; otherwise the answer of [runner.handle_exception], which
    is [False] once the runner is running or finished, and that is the
    case for an exception that leaves [runner.run()] and for one that
    escapes from the runner's own generator.  (A runner that is suspended
    would get the exception thrown into its generator; the one generator
    here that waits for calls of its own is [_execute], and an exception
    that escapes from such a call meets the context of line 101 first.) *)
Definition handle_exception (e : exn) : M bool := ret false.

(** [_done] inside [callback_engine.wrapper]. *)
Definition _done (callback : option (M unit)) : M unit :=
  emit EvDeactivate ;;
  match callback with
  | Some cb => cb
  | None => ret tt
  end.

(** The [wrapper] that [callback_engine(func)] returns, called with or
    without a [callback] keyword: [func] is the inner call of line 78, made
    after the callback was popped from the keyword arguments. *)
Definition wrapper (func : M py_value) (callback : option (M unit)) : M unit :=
  ExceptionStackContext handle_exception
    (gen ← func;
     match gen with
     | PyGenerator g => Runner_run g (_done callback)
     | PyNone => _done callback
     | PyOther => raise AssertionError    (* assert gen is None, gen *)
     end).

(** ** middleware_request.py: the handler operations *)

(** [MiddlewareRequestHandler.redirect]: only stores the directive.  The
    call itself is noted in the log, so that the log tells when a redirect
    was asked for and when it was sent. *)
Definition redirect (args : call_args) : M unit :=
  emit (EvRedirectCall args) ;; modify (set_redirection (Some args)).

(** [MiddlewareRequestHandler.finish]: does nothing. *)
Definition finish : M unit := ret tt.

(** The signature of [tornado.web.RequestHandler.redirect] is
    [redirect(self, url, permanent=False, status=None)].  A call with the
    positional arguments [a] and the keyword arguments [kw] gives the
    first [len(a)] parameters by position and those named in [kw] by
    keyword. *)
Definition redirect_parameters : list string := ["url"; "permanent"; "status"].

Definition given_parameters (args : call_args) : list string :=
  take (length args.1) redirect_parameters ++ map fst args.2.

(** Python binds the call when there are no more positional arguments than
    parameters, every keyword names a parameter, none is given twice, and
    [url] is given; otherwise the call raises [TypeError]. *)
Definition redirect_binds (args : call_args) : bool :=
  bool_decide (length args.1 <= length redirect_parameters)
  && bool_decide (NoDup (given_parameters args))
  && bool_decide (given_parameters args ⊆ redirect_parameters)
  && bool_decide ("url" ∈ given_parameters args).

(** The [status] argument of a call, if one is given. *)
Definition status_argument (args : call_args) : option string :=
  match args.1 !! 2 with
  | Some v => Some v
  | None => snd <$> List.find (fun kv => String.eqb (fst kv) "status") args.2
  end.

(** Argument values are kept as they are written.  For a status other than
    [None], [redirect] asserts that it is an [int] from 300 to 399, and
    [set_status] that it is a status [httplib.responses] knows: the
    numerals from 300 to 307 pass. *)
Definition is_redirect_status (v : string) : bool :=
  bool_decide (v ∈ ["None"; "300"; "301"; "302"; "303"; "304"; "305"; "306";
                    "307"]).

(** [tornado.web.RequestHandler.redirect], the transport call.  It refuses
    to run once the headers have been written and checks the status; then
    it sets the status and the [Location] header and ends in
    [self.finish()], which on a [MiddlewareRequestHandler] is the method
    above.  The event is logged when the redirect is written to the
    response. *)
Definition RequestHandler_redirect (args : call_args) : M unit :=
  (if redirect_binds args then ret tt else raise TypeError) ;;
  written ← get _headers_written;
  (if written : bool
   then raise (Exception "Cannot redirect after headers have been written")
   else ret tt) ;;
  (if from_option is_redirect_status true (status_argument args)
   then ret tt else raise AssertionError) ;;
  emit (EvSuperRedirect args) ;; finish.

(** [tornado.web.RequestHandler.finish], the transport call: it refuses a
    second call, flushes the response, which writes the headers, and sets
    [_finished].  The event is logged when the response is flushed. *)
Definition RequestHandler_finish : M unit :=
  finished ← get _finished;
  (if finished : bool
   then raise (Exception "finish() called twice")
   else ret tt) ;;
  emit EvSuperFinish ;;
  modify (set_headers_written true) ;;
  modify (set_finished true).

(** [MiddlewareRequestHandler.try_redirect]; a stored [(a, kw)] pair is a
    non-empty tuple, hence true. *)
Definition try_redirect : M unit :=
  r ← get _redirection;
  match r with
  | Some args => RequestHandler_redirect args
  | None => ret tt
  end.

(** [MiddlewareRequestHandler.do_finish] *)
Definition do_finish : M unit := RequestHandler_finish.

(** ** Running application code *)

Definition exec_cmd (c : cmd) : M unit :=
  match c with
  | CallRedirect args => redirect args
  | CallFinish => finish
  | CallDoFinish => do_finish
  | DoWrite chunk => emit (EvWrite chunk)
  | DoRaise e => raise e
  end.

Definition exec (body : list cmd) : M unit := for_each body exec_cmd.

(** The generator that a generator function returns. *)
Definition generator_of (f : callable) : generator :=
  match c_suspends_after f with
  | None => {| g_ready := exec (c_body f); g_resumed := None |}
  | Some n => {| g_ready := exec (take n (c_body f));
                 g_resumed := Some (exec (drop n (c_body f))) |}
  end.

(** Calling a function without a [callback], as [callback_engine.wrapper]
    does at line 78; the call is observed as [entry].  A plain function
    runs its body at once; a generator function only builds the generator,
    and the body runs when that is driven. *)
Definition invoke (entry : event) (f : callable) : M py_value :=
  emit entry ;;
  match c_style f with
  | Plain =>
      exec (c_body f) ;;
      ret (if c_returns_value f then PyOther else PyNone)
  | Suspending => ret (PyGenerator (generator_of f))
  end.

(** Calling a function that [callback_engine] has not wrapped, with a
    [callback] keyword, for a caller that waits for the callback.  A
    signature without such a parameter makes the call a [TypeError]; a
    generator function builds a generator that nobody drives; a plain
    function runs, and the caller goes on if the callback is called. *)
Definition call_bare (entry : event) (f : callable) (callback : M unit)
    : M unit :=
  emit entry ;;
  match c_callback f, c_style f with
  | NoCallbackParameter, _ => raise TypeError
  | _, Suspending => stall
  | CallbackCalled, Plain => exec (c_body f) ;; callback
  | CallbackIgnored, Plain => exec (c_body f) ;; stall
  end.

(** [yield Task(f, ...)]: the task calls [f] with its own [callback], which
    resumes the yielding generator; an exception raised by the call is
    thrown into the yielding generator at the [yield]. *)
Definition Task (t : task_id) (entry : event) (f : function) : M unit :=
  match f with
  | Engine f => wrapper (invoke entry f) (Some (emit (EvResume t)))
  | Bare f => call_bare entry f (emit (EvResume t))
  end.

(** ** The metaclasses *)

(** Lines 31-33 and 171-173: a metaclass replaces the entries of [dct]
    under the names it lists by their [callback_engine] wrapping, and
    leaves every other entry as it is. *)
Definition metaclass_wrap (names : list string) (n : string) (f : callable)
    : function :=
  if bool_decide (n ∈ names) then Engine f else Bare f.

Definition stage_name (s : stage) : string :=
  match s with
  | before => "before"
  | after => "after"
  | after_finish => "after_finish"
  end.

(** The stage method of a middleware instance.  The middleware classes
    derive from [Middleware], so [MiddlewareMetaclass] made them: its three
    stage methods and every override of them went through lines
    171-173. *)
Definition stage_function (s : stage) (m : middleware_class) : function :=
  metaclass_wrap ["before"; "after"; "after_finish"] (stage_name s)
    (stage_method s m).

(** ** The handler class and the request *)

(** What [_execute] reads from [self.__class__], [self.application] and the
    tornado base class.  [methods] gives the function that attribute
    lookup finds under a name, as it was written, and [in_dct] tells
    whether that function stood in the [dct] of a class that
    [MiddlewareRequestMeta] made (the handler class or an ancestor of it),
    and not in a mixin or in the tornado base class.  [prepare] is the
    body of the [prepare] hook, which is called directly. *)
Record handler_class : Type := HandlerClass {
  SUPPORTED_METHODS : list string;
  middleware : list middleware_class;
  xsrf_cookies : bool;
  prepare : list cmd;
  methods : string -> callable;
  in_dct : string -> bool;
  decode_argument : string -> option string -> string
}.

(** [getattr(self, name)] for an action method. *)
Definition getattr_method (cls : handler_class) (name : string) : function :=
  if in_dct cls name
  then metaclass_wrap ["get"; "post"; "head"; "put"; "delete"] name
         (methods cls name)
  else Bare (methods cls name).

Record request : Type := Request {
  method : string;
  xsrf_cookie_valid : bool
}.

(** Python's [str.lower] on ASCII text. *)
Definition lower_ascii (c : Ascii.ascii) : Ascii.ascii :=
  let n := Ascii.nat_of_ascii c in
  if (65 <=? n)%nat && (n <=? 90)%nat then Ascii.ascii_of_nat (n + 32) else c.

Fixpoint lower (s : string) : string :=
  match s with
  | EmptyString => EmptyString
  | String c s' => String (lower_ascii c) (lower s')
  end.

(** [self.check_xsrf_cookie()] of the tornado base class: raises
    [HTTPError(403)] when the cookie does not match. *)
Definition check_xsrf_cookie (req : request) : M unit :=
  emit EvCheckXsrf ;;
  if xsrf_cookie_valid req then ret tt else raise (HTTPError 403).

(** Lines 124-127: every raw argument goes through [decode_argument]. *)
Fixpoint decode_list (cls : handler_class) (args : list string)
    : M (list string) :=
  match args with
  | [] => ret []
  | arg :: rest =>
      emit (EvDecode arg None) ;;
      ds ← decode_list cls rest;
      ret (decode_argument cls arg None :: ds)
  end.

Fixpoint decode_dict (cls : handler_class) (kwargs : list (string * string))
    : M (list (string * string)) :=
  match kwargs with
  | [] => ret []
  | (k, v) :: rest =>
      emit (EvDecode v (Some k)) ;;
      ds ← decode_dict cls rest;
      ret ((k, decode_argument cls v (Some k)) :: ds)
  end.

(** ** middleware_request.py: [MiddlewareRequestHandler._execute] *)

(** [self._stack_context_handle_exception] of the tornado base class: hands
    the exception to the error reporting of the handler and answers
    [True]. *)
Definition _stack_context_handle_exception (e : exn) : M bool :=
  emit (EvHandleException e) ;; ret true.

(** Lines 103-162, the body of the [with] block.  The assignment to
    [self._transforms] is left out.  [if self._cached_args:] tests a stored
    [(args, kwargs)] pair, a non-empty tuple, which is true whenever the
    attribute is set. *)
Definition _execute_body (cls : handler_class) (req : request)
    (raw : call_args) : M unit :=
  run_middleware ← get (fun h => negb (_called_once h));
  modify (set_called_once true) ;;
  modify (set_executed_middleware []) ;;
  (if run_middleware : bool then
     (if bool_decide (method req ∈ SUPPORTED_METHODS cls)
      then ret tt else raise (HTTPError 405)) ;;
     (if negb (bool_decide (method req ∈ ["GET"; "HEAD"; "OPTIONS"]))
           && xsrf_cookies cls
      then check_xsrf_cookie req else ret tt) ;;
     emit EvPrepare ;; exec (prepare cls)
   else ret tt) ;;
  args ← (cached ← get _cached_args;
          match cached with
          | Some c => ret c
          | None =>
              a ← decode_list cls (fst raw);
              kw ← decode_dict cls (snd raw);
              modify (set_cached_args (Some (a, kw))) ;;
              ret (a, kw)
          end);
  try_except
    ((if run_middleware : bool then
        for_each (middleware cls) (fun middle_class =>
          emit (EvConstruct (mw_name middle_class)) ;;
          modify (fun h => set_executed_middleware
                             (middle_class :: executed_middleware h) h) ;;
          Task (StageOf before (mw_name middle_class))
               (EvStage before (mw_name middle_class))
               (stage_function before middle_class))
      else ret tt) ;;
     Task (ActionOf (lower (method req)))
          (EvAction (lower (method req)) args)
          (getattr_method cls (lower (method req))))
    is_InterruptRequest (fun _ => ret tt) ;;
  if run_middleware : bool then
    (executed ← get executed_middleware;
     for_each executed (fun middle =>
       Task (StageOf after (mw_name middle))
            (EvStage after (mw_name middle))
            (stage_function after middle))) ;;
    (try_redirect ;;
     finished ← get _finished;
     if negb finished then do_finish else ret tt) ;;
    (executed ← get executed_middleware;
     for_each executed (fun middle =>
       Task (StageOf after_finish (mw_name middle))
            (EvStage after_finish (mw_name middle))
            (stage_function after_finish middle)))
  else ret tt.

(** What driving the generator that the undecorated [_execute] returns
    does: the [with] statement of lines 101-162. *)
Definition _execute_gen (cls : handler_class) (req : request)
    (raw : call_args) : M unit :=
  ExceptionStackContext _stack_context_handle_exception
    (_execute_body cls req raw).

(** [_execute] as decorated by [callback_engine].  The waiting that its
    generator does is that of the tasks it yields, which is in
    [_execute_gen]. *)
Definition _execute (cls : handler_class) (req : request) (raw : call_args)
    (callback : option (M unit)) : M unit :=
  wrapper (ret (PyGenerator {| g_ready := _execute_gen cls req raw;
                               g_resumed := None |})) callback.

(** ** middleware_request.py: [MiddlewareRequestMeta.__new__] *)

(** Lines 23-29.  Each base is given by its [middleware] attribute, [None]
    for a base that has none; [dct_middleware] is [dct.get('middleware')].
    The result is what the new class stores as [middleware]. *)
Definition MiddlewareRequestMeta_new
    (bases : list (option (list middleware_class)))
    (dct_middleware : option (list middleware_class))
    : list middleware_class :=
  fold_left (fun middleware base => default [] base ++ middleware)
    bases (default [] dct_middleware).

(** A class hierarchy: a class with no [middleware] attribute (such as
    [tornado.web.RequestHandler] or a mixin), or a class made by the
    metaclass from its bases and its own [middleware] entry. *)
#[warnings="-register-all"] Inductive py_class : Type :=
  | OtherClass
  | PipelineClass (bases : list py_class)
                  (dct_middleware : option (list middleware_class)).

(** [getattr(c, 'middleware', None)] *)
Fixpoint class_middleware (c : py_class) : option (list middleware_class) :=
  match c with
  | OtherClass => None
  | PipelineClass bases own =>
      Some (MiddlewareRequestMeta_new (map class_middleware bases) own)
  end.

(** * Properties *)

(** ** Reading the log *)

(** How many events of a log satisfy [p]. *)
Definition count_ev (p : event -> bool) (l : list event) : nat :=
  length (List.filter p l).

Definition is_callback (tag : string) (e : event) : bool :=
  match e with
  | EvCallback t => bool_decide (t = tag)
  | _ => false
  end.

(** How often the completion callback tagged [tag] has fired. *)
Definition fired (tag : string) (h : handler) : nat :=
  count_ev (is_callback tag) (log h).

(** An event that application code produces by itself. *)
Definition is_user_event (e : event) : bool :=
  match e with
  | EvWrite _ | EvSuperFinish | EvRedirectCall _ => true
  | _ => false
  end.

(** ** C1: the completion callback *)

(** The wrapped function runs to its end: its body raises nothing and, for
    a plain function, nothing other than [None] is returned. *)
Definition completes (entry : event) (f : callable) (h : handler) : bool :=
  match (exec (c_body f) (add_log entry h)).1 with
  | Returned _ =>
      match c_style f with
      | Suspending => true
      | Plain => negb (c_returns_value f)
      end
  | _ => false
  end.

(** One call of the wrapped function with a callback tagged [tag]. *)
Definition call_with_callback (entry : event) (f : callable) (tag : string)
    : M unit :=
  wrapper (invoke entry f) (Some (emit (EvCallback tag))).

(** ** C3: the middleware class list *)

(** The list as the specification words it: the bases' lists in the order
    of the bases, then the subtype's own entries. *)
Definition spec_middleware_list
    (bases : list (option (list middleware_class)))
    (dct_middleware : option (list middleware_class))
    : list middleware_class :=
  concat (map (default []) bases) ++ default [] dct_middleware.

(** A middleware class that overrides nothing. *)
Definition bare (name : string) : middleware_class :=
  {| mw_name := name; mw_before := plain []; mw_after := plain [];
     mw_after_finish := plain [] |}.

(** ** The pipeline: its blocks *)

(** Lines 110-119, run on a first call only. *)
Definition validate_prepare (cls : handler_class) (req : request) : M unit :=
  (if bool_decide (method req ∈ SUPPORTED_METHODS cls)
   then ret tt else raise (HTTPError 405)) ;;
  (if negb (bool_decide (method req ∈ ["GET"; "HEAD"; "OPTIONS"]))
        && xsrf_cookies cls
   then check_xsrf_cookie req else ret tt) ;;
  emit EvPrepare ;; exec (prepare cls).

(** Lines 121-128. *)
Definition decoded_args (cls : handler_class) (raw : call_args)
    : M call_args :=
  cached ← get _cached_args;
  match cached with
  | Some c => ret c
  | None =>
      a ← decode_list cls (fst raw);
      kw ← decode_dict cls (snd raw);
      modify (set_cached_args (Some (a, kw))) ;;
      ret (a, kw)
  end.

(** Lines 132-135. *)
Definition before_loop (mws : list middleware_class) : M unit :=
  for_each mws (fun middle_class =>
    emit (EvConstruct (mw_name middle_class)) ;;
    modify (fun h => set_executed_middleware
                       (middle_class :: executed_middleware h) h) ;;
    Task (StageOf before (mw_name middle_class))
         (EvStage before (mw_name middle_class))
         (stage_function before middle_class)).

(** Lines 140-144. *)
Definition action_task (cls : handler_class) (req : request)
    (args : call_args) : M unit :=
  Task (ActionOf (lower (method req)))
       (EvAction (lower (method req)) args)
       (getattr_method cls (lower (method req))).

(** Lines 130-147, the [try] statement. *)
Definition guarded (cls : handler_class) (req : request)
    (run_middleware : bool) (args : call_args) : M unit :=
  try_except
    ((if run_middleware then before_loop (middleware cls) else ret tt) ;;
     action_task cls req args)
    is_InterruptRequest (fun _ => ret tt).

(** Lines 150-151 and 161-162: one stage of every executed middleware. *)
Definition stage_tasks (s : stage) (ms : list middleware_class) : M unit :=
  for_each ms (fun middle =>
    Task (StageOf s (mw_name middle)) (EvStage s (mw_name middle))
         (stage_function s middle)).

Definition stage_loop (s : stage) : M unit :=
  executed ← get executed_middleware; stage_tasks s executed.

(** Lines 155-159. *)
Definition finish_step : M unit :=
  try_redirect ;;
  finished ← get _finished;
  if negb finished then do_finish else ret tt.

(** Lines 150-162, the body of the last [if run_middleware]. *)
Definition cleanup : M unit :=
  stage_loop after ;; finish_step ;; stage_loop after_finish.

(** ** The pipeline: reading its log *)

(** Events that application code, or the adapter's bookkeeping, leaves in
    the log; the others make up the skeleton of a dispatch. *)
Definition is_noise (e : event) : bool :=
  match e with
  | EvWrite _ | EvSuperFinish | EvRedirectCall _ | EvDeactivate
  | EvCallback _ => true
  | _ => false
  end.

Definition skel (l : list event) : list event :=
  List.filter (fun e => negb (is_noise e)) l.

(** The events a computation adds to the log of [h]. *)
Definition news {A} (m : M A) (h : handler) : list event :=
  drop (length (log h)) (log (m h).2).

Definition same_stage (a b : stage) : bool :=
  match a, b with
  | before, before | after, after | after_finish, after_finish => true
  | _, _ => false
  end.

(** The middleware whose stage [s] was entered, in order. *)
Definition entered (s : stage) (l : list event) : list string :=
  omap (fun e => match e with
                 | EvStage s' n => if same_stage s' s then Some n else None
                 | _ => None
                 end) l.

(** The middleware whose stage [s] finished and resumed the pipeline. *)
Definition completed (s : stage) (l : list event) : list string :=
  omap (fun e => match e with
                 | EvResume (StageOf s' n) =>
                     if same_stage s' s then Some n else None
                 | _ => None
                 end) l.

Definition constructed (l : list event) : list string :=
  omap (fun e => match e with EvConstruct n => Some n | _ => None end) l.

(** The action calls, each with the arguments it received. *)
Definition actions (l : list event) : list (string * call_args) :=
  omap (fun e => match e with EvAction m a => Some (m, a) | _ => None end) l.

(** The redirects sent to the transport. *)
Definition sent (l : list event) : list call_args :=
  omap (fun e => match e with EvSuperRedirect a => Some a | _ => None end) l.

(** The hooks of the tornado base class that were called. *)
Definition hooks (l : list event) : list event :=
  omap (fun e => match e with
                 | EvPrepare | EvCheckXsrf | EvDecode _ _ => Some e
                 | _ => None
                 end) l.

(** The transport finalizations. *)
Definition finalized (l : list event) : nat :=
  count_ev (fun e => match e with EvSuperFinish => true | _ => false end) l.

(** The redirect directive left pending by the [redirect] calls of a log,
    starting from [init]. *)
Definition pending (init : option call_args) (l : list event)
    : option call_args :=
  fold_left (fun acc e => match e with
                          | EvRedirectCall a => Some a
                          | _ => acc
                          end) l init.

(** The arguments of the [redirect] calls of a log, in order. *)
Definition calls (l : list event) : list call_args :=
  omap (fun e => match e with EvRedirectCall a => Some a | _ => None end) l.

(** The [do_finish] calls written in a body. *)
Definition do_finish_calls (body : list cmd) : nat :=
  length (List.filter (fun c => match c with CallDoFinish => true | _ => false end)
            body).

(** ** The pipeline: how a block runs *)

Definition returned {A} (o : outcome A) : bool :=
  match o with Returned _ => true | _ => false end.

(** An outcome other than a return, passed on by the code that follows. *)
Definition passed {A B} (o : outcome A) : outcome B :=
  match o with
  | Raised e => Raised e
  | Escaped e => Escaped e
  | _ => Stalled
  end.

(** [m], run from [h], adds [tr] to the log, and the stored redirect
    directive follows the [redirect] calls in [tr]. *)
Definition traces {A} (m : M A) (h : handler) (tr : list event) : Prop :=
  log (m h).2 = log h ++ tr /\
  _redirection (m h).2 = pending (_redirection h) tr.

(** [m], run from [h], leaves the pipeline's own variables alone and does
    not undo a finalization. *)
Definition keeps {A} (m : M A) (h : handler) : Prop :=
  _called_once (m h).2 = _called_once h /\
  _cached_args (m h).2 = _cached_args h /\
  executed_middleware (m h).2 = executed_middleware h /\
  (_finished h = true -> _finished (m h).2 = true).

(** [m], run from [h], adds a trace with skeleton [sk] and keeps the
    pipeline's variables. *)
Definition spec {A} (m : M A) (h : handler) (sk : list event) : Prop :=
  exists tr, traces m h tr /\ skel tr = sk /\ keeps m h.

(** What the [before] loop keeps: everything but the list of executed
    middleware, to which it adds. *)
Definition enters {A} (m : M A) (h : handler) (tr sk : list event)
    (ms : list middleware_class) : Prop :=
  traces m h tr /\ skel tr = sk /\
  _called_once (m h).2 = _called_once h /\
  _cached_args (m h).2 = _cached_args h /\
  (_finished h = true -> _finished (m h).2 = true) /\
  executed_middleware (m h).2 = ms ++ executed_middleware h.

(** How many turns of a [for] loop ran to their end, one after the other
    from the first. *)
Fixpoint done_count {A} (xs : list A) (body : A -> M unit) (h : handler)
    : nat :=
  match xs with
  | [] => 0
  | x :: xs' =>
      match body x h with
      | (Returned _, h') => S (done_count xs' body h')
      | _ => 0
      end
  end.

(** One turn of the [before] loop (lines 133-135) and one turn of a loop
    over the executed middleware (lines 151 and 162). *)
Definition before_step (middle_class : middleware_class) : M unit :=
  emit (EvConstruct (mw_name middle_class)) ;;
  modify (fun h => set_executed_middleware
                     (middle_class :: executed_middleware h) h) ;;
  Task (StageOf before (mw_name middle_class))
       (EvStage before (mw_name middle_class))
       (stage_function before middle_class).

Definition stage_step (s : stage) (middle : middleware_class) : M unit :=
  Task (StageOf s (mw_name middle)) (EvStage s (mw_name middle))
       (stage_function s middle).

(** ** The pipeline: the skeleton each block leaves *)

(** The skeleton of a stage loop over [ms] in which [c] stages completed:
    each of them was called and resumed the pipeline, and the next one, if
    any, was called. *)
Fixpoint stage_events (s : stage) (c : nat) (ms : list middleware_class)
    {struct ms} : list event :=
  match ms with
  | [] => []
  | m :: rest =>
      EvStage s (mw_name m)
      :: match c with
         | 0 => []
         | S c' => EvResume (StageOf s (mw_name m)) :: stage_events s c' rest
         end
  end.

(** The same for the [before] loop, which constructs each middleware
    before it calls its stage. *)
Fixpoint before_events (c : nat) (ms : list middleware_class) {struct ms}
    : list event :=
  match ms with
  | [] => []
  | m :: rest =>
      EvConstruct (mw_name m) :: EvStage before (mw_name m)
      :: match c with
         | 0 => []
         | S c' => EvResume (StageOf before (mw_name m)) :: before_events c' rest
         end
  end.

(** Validation and preparation. *)
Definition xsrf_checked (cls : handler_class) (req : request) : bool :=
  negb (bool_decide (method req ∈ ["GET"; "HEAD"; "OPTIONS"]))
  && xsrf_cookies cls.

(** The state in which [_execute] starts its work: lines 105-107. *)
Definition entry_state (h : handler) : handler :=
  set_executed_middleware [] (set_called_once true h).

(** The exception with which validation and preparation end on a first
    call made on [h], if they end with one. *)
Definition validate_result (cls : handler_class) (req : request)
    (h : handler) : option exn :=
  match (validate_prepare cls req (entry_state h)).1 with
  | Raised e => Some e
  | _ => None
  end.

Definition validate_skel (cls : handler_class) (req : request)
    : list event :=
  if bool_decide (method req ∈ SUPPORTED_METHODS cls) then
    (if xsrf_checked cls req then [EvCheckXsrf] else [])
    ++ (if xsrf_checked cls req && negb (xsrf_cookie_valid req)
        then [] else [EvPrepare])
  else [].

(** Decoding. *)
Definition decoded (cls : handler_class) (raw : call_args) : call_args :=
  (map (fun a => decode_argument cls a None) (fst raw),
   map (fun kv => (fst kv, decode_argument cls (snd kv) (Some (fst kv))))
       (snd raw)).

Definition decode_events (raw : call_args) : list event :=
  map (fun a => EvDecode a None) (fst raw)
  ++ map (fun kv => EvDecode (snd kv) (Some (fst kv))) (snd raw).

Definition add_logs (l : list event) (h : handler) : handler :=
  {| _called_once := _called_once h; _redirection := _redirection h;
     _cached_args := _cached_args h; _finished := _finished h;
     _headers_written := _headers_written h;
     executed_middleware := executed_middleware h; log := log h ++ l |}.

(** The arguments the action is called with; [cached] is [_cached_args] at
    the start of the call. *)
Definition call_arguments (cls : handler_class) (raw : call_args)
    (cached : option call_args) : call_args :=
  default (decoded cls raw) cached.

(** The exception with which [RequestHandler.redirect] refuses a
    directive, [written] telling whether the headers have been written. *)
Definition redirect_error (args : call_args) (written : bool) : option exn :=
  if negb (redirect_binds args) then Some TypeError
  else if written
       then Some (Exception "Cannot redirect after headers have been written")
  else if negb (from_option is_redirect_status true (status_argument args))
       then Some AssertionError
  else None.

(** The exception with which the finish step ends when it starts in [h],
    if it ends with one: that of the deferred redirect ([do_finish] is
    called on a response that is not finalized and goes through). *)
Definition finish_error (h : handler) : option exn :=
  match _redirection h with
  | Some a => redirect_error a (_headers_written h)
  | None => None
  end.

(** What the transport is sent at the finish step, given the pending
    directive and the [_finished] flag found there. *)
Definition finish_sends (pend : option call_args) (fin : bool) : list event :=
  match pend with
  | Some a => [EvSuperRedirect a]
  | None => []
  end ++ (if fin then [] else [EvSuperFinish]).

(** The part of the pipeline an event of the skeleton belongs to. *)
Inductive ekind : Type :=
  | KHook
  | KStage (s : stage)
  | KAction
  | KSend
  | KNone.

Definition kind (e : event) : ekind :=
  match e with
  | EvCheckXsrf | EvPrepare | EvDecode _ _ => KHook
  | EvConstruct _ => KStage before
  | EvStage s _ | EvResume (StageOf s _) => KStage s
  | EvAction _ _ | EvResume (ActionOf _) => KAction
  | EvSuperRedirect _ => KSend
  | _ => KNone
  end.

(** A reading [f] of the log looks at events of kind [K] only. *)
Definition reads {X} (f : event -> option X) (K : ekind) : Prop :=
  forall e x, f e = Some x -> kind e = K.

Definition all_of_kind (K : ekind) (l : list event) : Prop :=
  Forall (fun e => kind e = K) l.

(** ** The pipeline: its program points on a first call *)

(** Lines 109-128: validation, preparation and decoding. *)
Definition prologue (cls : handler_class) (req : request) (raw : call_args)
    : M call_args :=
  validate_prepare cls req ;; decoded_args cls raw.

(** Lines 109-147: everything up to the end of the [try] statement. *)
Definition try_block (cls : handler_class) (req : request)
    (raw : call_args) : M unit :=
  args ← prologue cls req raw;
  guarded cls req true args.

(** Lines 109-151: everything up to the end of the [after] loop. *)
Definition before_finish (cls : handler_class) (req : request)
    (raw : call_args) : M unit :=
  try_block cls req raw ;; stage_loop after.

(** The state in which the [before] loop starts. *)
Definition before_state (cls : handler_class) (req : request)
    (raw : call_args) (h : handler) : handler :=
  (prologue cls req raw (entry_state h)).2.

(** The state in which the finish step (lines 155-159) starts. *)
Definition finish_state (cls : handler_class) (req : request)
    (raw : call_args) (h : handler) : handler :=
  (before_finish cls req raw (entry_state h)).2.

(** ** Sample handlers *)

(** Three middleware, the second of which interrupts the request in its
    [before] stage; the action redirects. *)
Definition sample_middleware : list middleware_class :=
  [ {| mw_name := "m1"; mw_before := plain [DoWrite "m1.before"];
       mw_after := plain [DoWrite "m1.after"];
       mw_after_finish := suspending [DoWrite "m1.after_finish"] |};
    {| mw_name := "m2"; mw_before := plain [DoRaise InterruptRequest];
       mw_after := suspending [CallRedirect (["/login"], [])];
       mw_after_finish := plain [] |};
    {| mw_name := "m3"; mw_before := plain [DoWrite "m3.before"];
       mw_after := plain [DoWrite "m3.after"];
       mw_after_finish := plain [] |} ].

Definition sample_class : handler_class :=
  {| SUPPORTED_METHODS := ["GET"; "HEAD"; "POST"; "DELETE"; "PUT"; "OPTIONS"];
     middleware := sample_middleware;
     xsrf_cookies := false;
     prepare := [];
     methods := fun _ => plain [CallRedirect (["/a"], []);
                                CallRedirect (["/b"], [])];
     in_dct := fun _ => true;
     decode_argument := fun raw _ => raw |}.

Definition sample_request : request :=
  {| method := "GET"; xsrf_cookie_valid := true |}.

Definition sample_raw : call_args := (["42"], [("page", "7")]).

(** The sample request with a method the sample handler does not support. *)
Definition patch_request : request :=
  {| method := "PATCH"; xsrf_cookie_valid := true |}.

(** A handler object on which [_execute] has run before. *)
Definition reentered (d : call_args) : handler :=
  {| _called_once := true; _redirection := None; _cached_args := Some d;
     _finished := false; _headers_written := false;
     executed_middleware := []; log := [] |}.


(** The sample handler with a second middleware that looks something up
    before it decides: its [before] stage is a generator that waits for
    the event loop and interrupts the request once it is resumed. *)
Definition waiting_middleware : list middleware_class :=
  [ {| mw_name := "m1"; mw_before := plain [DoWrite "m1.before"];
       mw_after := plain [DoWrite "m1.after"];
       mw_after_finish := suspending [DoWrite "m1.after_finish"] |};
    {| mw_name := "m2";
       mw_before := waiting 1 [DoWrite "m2.lookup"; DoRaise InterruptRequest];
       mw_after := suspending [CallRedirect (["/login"], [])];
       mw_after_finish := plain [] |};
    {| mw_name := "m3"; mw_before := plain [DoWrite "m3.before"];
       mw_after := plain [DoWrite "m3.after"];
       mw_after_finish := plain [] |} ].

Definition waiting_class : handler_class :=
  {| SUPPORTED_METHODS := ["GET"; "HEAD"; "POST"; "DELETE"; "PUT"; "OPTIONS"];
     middleware := waiting_middleware;
     xsrf_cookies := false;
     prepare := [];
     methods := fun _ => plain [DoWrite "page"];
     in_dct := fun _ => true;
     decode_argument := fun raw _ => raw |}.

(** A handler whose stages all complete: the action asks for a redirect
    twice and the [after] stage of the first middleware, which runs last,
    once more. *)
Definition redirecting_class : handler_class :=
  {| SUPPORTED_METHODS := ["GET"; "POST"];
     middleware :=
       [ {| mw_name := "m1"; mw_before := plain [];
            mw_after := waiting 1 [DoWrite "m1.after";
                                   CallRedirect (["/c"], [("status", "303")])];
            mw_after_finish := plain [DoWrite "m1.after_finish"] |};
         {| mw_name := "m2"; mw_before := suspending [];
            mw_after := plain [DoWrite "m2.after"];
            mw_after_finish := plain [] |} ];
     xsrf_cookies := false;
     prepare := [];
     methods := fun _ => plain [CallRedirect (["/a"], []);
                                CallRedirect (["/b"], [])];
     in_dct := fun _ => true;
     decode_argument := fun raw _ => raw |}.

(** A handler whose action finalizes the response itself. *)
Definition finishing_class : handler_class :=
  {| SUPPORTED_METHODS := ["GET"; "POST"];
     middleware := [bare "m1"; bare "m2"];
     xsrf_cookies := true;
     prepare := [DoWrite "prepared"];
     methods := fun _ => suspending [DoWrite "page"; CallDoFinish];
     in_dct := fun _ => true;
     decode_argument := fun raw _ => raw |}.

(** A handler whose action finalizes the response itself and then asks
    for a redirect. *)
Definition late_redirect_class : handler_class :=
  {| SUPPORTED_METHODS := ["GET"; "POST"];
     middleware := [bare "m1"; bare "m2"];
     xsrf_cookies := false;
     prepare := [];
     methods := fun _ => plain [CallDoFinish; CallRedirect (["/late"], [])];
     in_dct := fun _ => true;
     decode_argument := fun raw _ => raw |}.

(** * Lemmas and theorems *)

(** ** Counting, sequencing and the log *)

Lemma count_ev_app p l1 l2 :
  count_ev p (l1 ++ l2) = count_ev p l1 + count_ev p l2.
Proof. unfold count_ev. by rewrite List.filter_app, length_app. Qed.

Lemma count_ev_snoc p l e :
  count_ev p (l ++ [e]) = count_ev p l + (if p e then 1 else 0).
Proof. rewrite count_ev_app. unfold count_ev. simpl. by destruct (p e). Qed.

Ltac unfold_M :=
  unfold mbind, mret, M_bind, M_ret, bind, ret, raise, escape, stall, emit,
    modify, get, try_except, from_event_loop in *.

Lemma ExceptionStackContext_passes body h :
  ExceptionStackContext handle_exception body h = body h.
Proof.
  unfold ExceptionStackContext, handle_exception.
  by destruct (body h) as [[[]|e|e|] h1].
Qed.

Lemma wrapper_unfold func callback h :
  wrapper func callback h
  = (gen ← func;
     match gen with
     | PyGenerator g => Runner_run g (_done callback)
     | PyNone => _done callback
     | PyOther => raise AssertionError
     end) h.
Proof. apply ExceptionStackContext_passes. Qed.

Lemma returned_true {A} (o : outcome A) :
  returned o = true -> exists a, o = Returned a.
Proof. destruct o; simpl; [by eauto | done..]. Qed.

Lemma returned_unit (o : outcome unit) :
  returned o = true <-> o = Returned tt.
Proof. destruct o as [[]| | |]; simpl; split; done. Qed.

Lemma bind_returned {A B} (m : M A) (k : A -> M B) h a :
  (m h).1 = Returned a -> (m ≫= k) h = k a (m h).2.
Proof. unfold_M. by destruct (m h) as [[?|?|?|] ?]; simpl; intros [=->]. Qed.

Lemma bind_passed {A B} (m : M A) (k : A -> M B) h :
  returned (m h).1 = false -> (m ≫= k) h = (passed (m h).1, (m h).2).
Proof. unfold_M. by destruct (m h) as [[?|?|?|] ?]. Qed.

Lemma passed_not_returned {A B} (o : outcome A) :
  returned (passed o : outcome B) = false.
Proof. by destruct o. Qed.

Lemma pending_app init l1 l2 :
  pending init (l1 ++ l2) = pending (pending init l1) l2.
Proof. unfold pending. by rewrite fold_left_app. Qed.

Lemma skel_app l1 l2 : skel (l1 ++ l2) = skel l1 ++ skel l2.
Proof. unfold skel. by rewrite List.filter_app. Qed.

Lemma skel_cons e l : is_noise e = false -> skel (e :: l) = e :: skel l.
Proof. intros He. unfold skel. simpl. by rewrite He. Qed.

Lemma skel_noise e l : is_noise e = true -> skel (e :: l) = skel l.
Proof. intros He. unfold skel. simpl. by rewrite He. Qed.

Lemma news_of {A} (m : M A) h tr : log (m h).2 = log h ++ tr -> news m h = tr.
Proof. intros H. unfold news. rewrite H. apply drop_app_length. Qed.

Lemma traces_news {A} (m : M A) h tr : traces m h tr -> news m h = tr.
Proof. intros [H _]. by apply news_of. Qed.

Lemma traces_ret {A} (a : A) h : traces (ret a) h [].
Proof. split; simpl; [by rewrite app_nil_r | done]. Qed.

Lemma keeps_ret {A} (a : A) h : keeps (ret a) h.
Proof. by repeat split. Qed.

Lemma traces_bind {A B} (m : M A) (k : A -> M B) h a t1 t2 :
  (m h).1 = Returned a -> traces m h t1 -> traces (k a) (m h).2 t2 ->
  traces (m ≫= k) h (t1 ++ t2).
Proof.
  intros Hr [Hl1 Hp1] [Hl2 Hp2]. unfold traces.
  rewrite (bind_returned _ _ _ _ Hr), Hl2, Hl1, Hp2, Hp1, pending_app.
  by rewrite app_assoc.
Qed.

Lemma traces_bind_passed {A B} (m : M A) (k : A -> M B) h t1 :
  returned (m h).1 = false -> traces m h t1 -> traces (m ≫= k) h t1.
Proof. intros Hr Ht. unfold traces. by rewrite (bind_passed _ _ _ Hr). Qed.

Lemma keeps_bind {A B} (m : M A) (k : A -> M B) h :
  keeps m h -> (forall a, (m h).1 = Returned a -> keeps (k a) (m h).2) ->
  keeps (m ≫= k) h.
Proof.
  intros (H1 & H2 & H3 & H4) Hk. destruct (returned (m h).1) eqn:Hr.
  - destruct (returned_true _ Hr) as [a Ha].
    destruct (Hk a Ha) as (K1 & K2 & K3 & K4).
    unfold keeps. rewrite (bind_returned _ _ _ _ Ha).
    rewrite K1, K2, K3, H1, H2, H3. repeat split; auto.
  - unfold keeps. rewrite (bind_passed _ _ _ Hr). simpl.
    repeat split; auto.
Qed.

Lemma traces_cons {A} (m : M A) e h tr :
  is_noise e = false -> traces m (add_log e h) tr ->
  log (m (add_log e h)).2 = log h ++ e :: tr /\
  _redirection (m (add_log e h)).2 = pending (_redirection h) (e :: tr).
Proof.
  intros He [Hl Hp]. split.
  - rewrite Hl. simpl. by rewrite <- app_assoc.
  - rewrite Hp. by destruct e.
Qed.

(** ** Readings and kinds *)

Lemma noise_kind e : is_noise e = true -> kind e = KNone.
Proof. by destruct e. Qed.

Lemma omap_skel {X} (f : event -> option X) K l :
  reads f K -> K <> KNone -> omap f (skel l) = omap f l.
Proof.
  intros Hf HK. induction l as [|e l IH]; [done|].
  unfold skel in *. simpl. destruct (is_noise e) eqn:He; simpl.
  - destruct (f e) as [x|] eqn:Hfe; [|exact IH].
    apply Hf in Hfe. apply noise_kind in He. congruence.
  - destruct (f e); [f_equal|]; exact IH.
Qed.

Lemma omap_other {X} (f : event -> option X) K K' l :
  reads f K -> K <> K' -> all_of_kind K' l -> omap f l = [].
Proof.
  intros Hf HK. induction 1 as [|e l He _ IH]; [done|]. simpl.
  destruct (f e) as [x|] eqn:Hfe; [|done]. apply Hf in Hfe. congruence.
Qed.

Lemma omap_foreign {X} (f : event -> option X) K K' l :
  reads f K -> K <> KNone -> K <> K' -> all_of_kind K' (skel l) ->
  omap f l = [].
Proof.
  intros Hf HK HK' Hl. rewrite <- (omap_skel f K l Hf HK).
  by apply (omap_other f K K').
Qed.

Lemma all_of_kind_app K l1 l2 :
  all_of_kind K l1 -> all_of_kind K l2 -> all_of_kind K (l1 ++ l2).
Proof. intros. by apply Forall_app. Qed.

Lemma all_of_kind_nil K : all_of_kind K [].
Proof. constructor. Qed.

Lemma reads_entered s :
  reads (fun e => match e with
                  | EvStage s' n => if same_stage s' s then Some n else None
                  | _ => None
                  end) (KStage s).
Proof. intros [] x; try done. simpl. by destruct s0, s. Qed.

Lemma reads_completed s :
  reads (fun e => match e with
                  | EvResume (StageOf s' n) =>
                      if same_stage s' s then Some n else None
                  | _ => None
                  end) (KStage s).
Proof. intros [] x; try done. destruct t; [|done]. simpl. by destruct s0, s. Qed.

Lemma reads_constructed :
  reads (fun e => match e with EvConstruct n => Some n | _ => None end)
        (KStage before).
Proof. by intros [] x. Qed.

Lemma reads_actions :
  reads (fun e => match e with EvAction m a => Some (m, a) | _ => None end)
        KAction.
Proof. by intros [] x. Qed.

Lemma reads_sent :
  reads (fun e => match e with EvSuperRedirect a => Some a | _ => None end)
        KSend.
Proof. by intros [] x. Qed.

Lemma reads_hooks :
  reads (fun e => match e with
                  | EvPrepare | EvCheckXsrf | EvDecode _ _ => Some e
                  | _ => None
                  end) KHook.
Proof. by intros [] x. Qed.

Lemma same_stage_refl s : same_stage s s = true.
Proof. by destruct s. Qed.

Lemma entered_app s l1 l2 : entered s (l1 ++ l2) = entered s l1 ++ entered s l2.
Proof. apply omap_app. Qed.

Lemma completed_app s l1 l2 :
  completed s (l1 ++ l2) = completed s l1 ++ completed s l2.
Proof. apply omap_app. Qed.

Lemma constructed_app l1 l2 :
  constructed (l1 ++ l2) = constructed l1 ++ constructed l2.
Proof. apply omap_app. Qed.

Lemma actions_app l1 l2 : actions (l1 ++ l2) = actions l1 ++ actions l2.
Proof. apply omap_app. Qed.

Lemma sent_app l1 l2 : sent (l1 ++ l2) = sent l1 ++ sent l2.
Proof. apply omap_app. Qed.

Lemma hooks_app l1 l2 : hooks (l1 ++ l2) = hooks l1 ++ hooks l2.
Proof. apply omap_app. Qed.

Lemma calls_app l1 l2 : calls (l1 ++ l2) = calls l1 ++ calls l2.
Proof. apply omap_app. Qed.

Lemma finalized_app l1 l2 : finalized (l1 ++ l2) = finalized l1 + finalized l2.
Proof. apply count_ev_app. Qed.

Lemma map_prefix {A B} (f : A -> B) (l1 l2 : list A) :
  l1 `prefix_of` l2 -> map f l1 `prefix_of` map f l2.
Proof. intros [k ->]. exists (map f k). apply map_app. Qed.

Lemma map_reverse {A B} (f : A -> B) (l : list A) :
  map f (reverse l) = reverse (map f l).
Proof. apply (fmap_reverse f). Qed.

(** ** Application code *)

(** Application code neither escapes nor stalls: it runs in the frame
    that called it. *)
Lemma exec_cmd_sync c h :
  (exec_cmd c h).1 = Returned tt \/ exists e, (exec_cmd c h).1 = Raised e.
Proof.
  destruct c; simpl; unfold_M; simpl; eauto.
  unfold do_finish, RequestHandler_finish. unfold_M. simpl.
  destruct (_finished h); simpl; eauto.
Qed.

Lemma exec_sync body h :
  (exec body h).1 = Returned tt \/ exists e, (exec body h).1 = Raised e.
Proof.
  revert h. induction body as [|c body IH]; intros h; [by left|].
  change (exec (c :: body)) with (exec_cmd c ;; exec body).
  destruct (exec_cmd_sync c h) as [Hc|[e Hc]].
  - rewrite (bind_returned _ _ _ _ Hc). apply IH.
  - right. exists e. rewrite bind_passed by (by rewrite Hc). by rewrite Hc.
Qed.

Lemma exec_app l1 l2 h : exec (l1 ++ l2) h = (exec l1 ;; exec l2) h.
Proof.
  revert h. induction l1 as [|c l1 IH]; intros h; [done|].
  change (exec ((c :: l1) ++ l2)) with (exec_cmd c ;; exec (l1 ++ l2)).
  change (exec (c :: l1)) with (exec_cmd c ;; exec l1).
  unfold_M. by destruct (exec_cmd c h) as [[[]|e|e|] h1].
Qed.

(** Application code leaves alone every event kind it cannot produce. *)
Lemma exec_cmd_count p c h :
  (forall e, is_user_event e = true -> p e = false) ->
  count_ev p (log (exec_cmd c h).2) = count_ev p (log h).
Proof.
  intros Hp. destruct c; simpl; unfold_M; simpl; try done.
  - unfold redirect. unfold_M. simpl.
    rewrite count_ev_snoc, (Hp (EvRedirectCall args)); [lia | done].
  - unfold do_finish, RequestHandler_finish. unfold_M. simpl.
    destruct (_finished h); simpl; [done|].
    rewrite count_ev_snoc, (Hp EvSuperFinish); [lia | done].
  - rewrite count_ev_snoc, (Hp (EvWrite chunk)); [lia | done].
Qed.

Lemma exec_count p body h :
  (forall e, is_user_event e = true -> p e = false) ->
  count_ev p (log (exec body h).2) = count_ev p (log h).
Proof.
  intros Hp. revert h. unfold exec.
  induction body as [|c body IH]; intros h; simpl; [done|].
  unfold_M. pose proof (exec_cmd_count p c h Hp) as Hc.
  destruct (exec_cmd c h) as [[[]|e|e|] h1]; simpl in *; try done.
  by rewrite IH.
Qed.

Lemma fired_exec tag body h : fired tag (exec body h).2 = fired tag h.
Proof. apply exec_count. by intros []. Qed.

Lemma fired_add_log tag e h :
  fired tag (add_log e h) = fired tag h + (if is_callback tag e then 1 else 0).
Proof. apply count_ev_snoc. Qed.

(** ** C1: the completion callback *)

(** C1 as the specification words it: exactly one firing on every path.
    It fails on the error path: a plain function that raises lets the
    exception through and the callback is never called. *)
Lemma C1_callback_not_fired_on_error :
  let f := plain [DoRaise (Exception "boom")] in
  let r := call_with_callback (EvWrite "enter") f "cb" __init__ in
  r.1 = Raised (Exception "boom") /\ fired "cb" r.2 = 0 /\
  fired "cb" r.2 <> fired "cb" __init__ + 1.
Proof. vm_compute. repeat split; discriminate. Qed.

(** C1, amended: a supplied completion callback fires exactly once when the
    wrapped function completes, be it plain or suspending, and not at all
    when it raises or returns a value that is neither [None] nor a
    generator (the exception is then left to propagate); it never fires
    twice. *)
Theorem C1_callback_once_iff_completes entry f tag h :
  is_callback tag entry = false ->
  let r := call_with_callback entry f tag h in
  fired tag r.2 = fired tag h + (if completes entry f h then 1 else 0) /\
  (r.1 = Returned tt <-> completes entry f h = true).
Proof.
  intros Hentry. unfold call_with_callback. rewrite wrapper_unfold.
  unfold invoke, completes.
  pose proof (fired_exec tag (c_body f) (add_log entry h)) as Hx.
  rewrite fired_add_log, Hentry, Nat.add_0_r in Hx.
  destruct (c_style f).
  - unfold_M; simpl.
    destruct (exec_sync (c_body f) (add_log entry h)) as [Hr|[e Hr]];
      destruct (exec (c_body f) (add_log entry h)) as [o h1];
      simpl in Hr, Hx; subst o; simpl.
    + destruct (c_returns_value f); simpl.
      * split; [lia | split; discriminate].
      * unfold _done. unfold_M. simpl.
        rewrite !fired_add_log. simpl. rewrite bool_decide_eq_true_2 by done.
        split; [lia | done].
    + split; [lia | split; discriminate].
  - revert Hx. rewrite <- (take_drop (default 0 (c_suspends_after f)) (c_body f)).
    rewrite exec_app. set (b1 := take _ _). set (b2 := drop _ _).
    pose proof (fired_exec tag b1 (add_log entry h)) as H1.
    rewrite fired_add_log, Hentry, Nat.add_0_r in H1.
    pose proof (fired_exec tag b2 (exec b1 (add_log entry h)).2) as H2.
    unfold Runner_run, generator_of, _done. subst b1 b2.
    destruct (c_suspends_after f) as [n|]; simpl in *.
    + unfold_M; simpl.
      destruct (exec_sync (take n (c_body f)) (add_log entry h))
        as [Hr|[e Hr]];
        destruct (exec (take n (c_body f)) (add_log entry h)) as [o h1];
        simpl in Hr, H1, H2 |- *; subst o; simpl.
      * destruct (exec_sync (drop n (c_body f)) h1) as [Hr|[e Hr]];
          destruct (exec (drop n (c_body f)) h1) as [o h2];
          simpl in Hr, H2 |- *; subst o; simpl; intros _.
        -- rewrite !fired_add_log. simpl.
           rewrite bool_decide_eq_true_2 by done. split; [lia | done].
        -- split; [lia | split; discriminate].
      * intros _. split; [lia | split; discriminate].
    + rewrite drop_0, take_0 in *. unfold_M; simpl in *.
      destruct (exec_sync (c_body f) (add_log entry h)) as [Hr|[e Hr]];
        destruct (exec (c_body f) (add_log entry h)) as [o h1];
        simpl in Hr, H2 |- *; subst o; simpl; intros _.
      * rewrite !fired_add_log. simpl.
        rewrite bool_decide_eq_true_2 by done. split; [lia | done].
      * split; [lia | split; discriminate].
Qed.

(** The theorem at a suspending function that redirects and completes. *)
Lemma C1_callback_once_witness :
  let f := suspending [CallRedirect (["/next"], [])] in
  let r := call_with_callback (EvWrite "enter") f "cb" __init__ in
  fired "cb" r.2 = fired "cb" __init__ + 1 /\ (r.1 = Returned tt <-> true = true).
Proof.
  exact (C1_callback_once_iff_completes (EvWrite "enter")
           (suspending [CallRedirect (["/next"], [])]) "cb" __init__ eq_refl).
Defined.

(** ** C3: the middleware class list *)

Lemma meta_new_fold (bases : list (option (list middleware_class))) acc :
  fold_left (fun middleware base => default [] base ++ middleware) bases acc
  = concat (reverse (map (default []) bases)) ++ acc.
Proof.
  revert acc. induction bases as [|b bases IH]; intros acc; simpl; [done|].
  rewrite IH, reverse_cons, concat_app. simpl.
  by rewrite app_nil_r, <- app_assoc.
Qed.

(** C3 as the specification words it fails for a type with two bases: the
    loop puts each base's list in front of what it has so far, so the base
    listed last comes first. *)
Lemma C3_two_bases_reversed :
  let bases := [Some [bare "m1"]; Some [bare "m2"]] in
  let own := Some [bare "m3"] in
  MiddlewareRequestMeta_new bases own = [bare "m2"; bare "m1"; bare "m3"] /\
  MiddlewareRequestMeta_new bases own <> spec_middleware_list bases own.
Proof. split; [reflexivity | discriminate]. Qed.

(** C3, amended: the effective list is the bases' effective lists
    concatenated in reverse of the order in which the bases are listed,
    followed by the subtype's own entries; with a single base this is the
    base's list followed by the subtype's own entries, and along a
    single-inheritance chain the lists are nested accordingly. *)
Theorem C3_middleware_list_reverse_bases bases own :
  MiddlewareRequestMeta_new bases own
    = concat (reverse (map (default []) bases)) ++ default [] own /\
  (forall base, MiddlewareRequestMeta_new [base] own
                = spec_middleware_list [base] own) /\
  (forall parents,
     class_middleware (PipelineClass parents own)
     = Some (concat (reverse (map (fun c => default [] (class_middleware c))
                                  parents))
             ++ default [] own)).
Proof.
  split; [apply meta_new_fold|]. split.
  - intros base. unfold MiddlewareRequestMeta_new, spec_middleware_list.
    simpl. by rewrite app_nil_r.
  - intros parents. simpl. unfold MiddlewareRequestMeta_new.
    by rewrite meta_new_fold, map_map.
Qed.


(** ** How a block runs: its trace, its skeleton, what it keeps *)

Lemma spec_ret {A} (a : A) h : spec (ret a) h [].
Proof. exists []. split; [apply traces_ret|]. split; [done|apply keeps_ret]. Qed.

Lemma spec_raise {A} e h : spec (raise e : M A) h [].
Proof. exists []. split; [apply (traces_ret tt)|]. by repeat split. Qed.

Lemma spec_stall {A} h : spec (stall : M A) h [].
Proof. exists []. split; [apply (traces_ret tt)|]. by repeat split. Qed.

Lemma spec_emit e h : is_noise e = false -> spec (emit e) h [e].
Proof.
  intros He. exists [e]. split; [|split].
  - split; [done|]. by destruct e.
  - by rewrite skel_cons.
  - by repeat split.
Qed.

Lemma spec_bind {A B} (m : M A) (k : A -> M B) h s1 (s2 : A -> list event) :
  spec m h s1 ->
  (forall a, (m h).1 = Returned a -> spec (k a) (m h).2 (s2 a)) ->
  spec (m ≫= k) h (s1 ++ match (m h).1 with
                         | Returned a => s2 a
                         | _ => []
                         end).
Proof.
  intros (t1 & Ht1 & Hs1 & Hk1) Hk. destruct (returned (m h).1) eqn:Hr.
  - destruct (returned_true _ Hr) as [a Ha]. rewrite Ha.
    destruct (Hk a Ha) as (t2 & Ht2 & Hs2 & Hk2).
    exists (t1 ++ t2). split; [by eapply traces_bind|].
    split; [by rewrite skel_app, Hs1, Hs2|].
    apply keeps_bind; [done|]. intros a' Ha'. rewrite Ha in Ha'.
    by injection Ha' as <-.
  - exists t1. split; [by apply traces_bind_passed|].
    split; [destruct (m h).1; try done; by rewrite app_nil_r|].
    apply keeps_bind; [done|]. intros a Ha. by rewrite Ha in Hr.
Qed.

Lemma spec_ext {A} (m m' : M A) h sk :
  (m' h).2 = (m h).2 -> spec m h sk -> spec m' h sk.
Proof.
  intros E (tr & [T1 T2] & Hs & K). exists tr. unfold traces, keeps in *.
  rewrite E. by repeat split; try apply K.
Qed.

Lemma from_event_loop_state {A} (m : M A) h :
  (from_event_loop m h).2 = (m h).2.
Proof. unfold from_event_loop. by destruct (m h) as [[?|?|?|] ?]. Qed.

Lemma from_event_loop_returned {A} (m : M A) h :
  returned (from_event_loop m h).1 = returned (m h).1.
Proof. unfold from_event_loop. by destruct (m h) as [[?|?|?|] ?]. Qed.

Lemma spec_from_event_loop {A} (m : M A) h sk :
  spec m h sk -> spec (from_event_loop m) h sk.
Proof. apply spec_ext, from_event_loop_state. Qed.

Lemma spec_wrapper func callback h sk :
  spec (gen ← func;
        match gen with
        | PyGenerator g => Runner_run g (_done callback)
        | PyNone => _done callback
        | PyOther => raise AssertionError
        end) h sk ->
  spec (wrapper func callback) h sk.
Proof. apply spec_ext. by rewrite wrapper_unfold. Qed.

(** ** Application code and tasks *)

Lemma spec_exec_cmd c h : spec (exec_cmd c) h [].
Proof.
  destruct c; simpl.
  - exists [EvRedirectCall args]. by repeat split.
  - apply spec_ret.
  - unfold do_finish, RequestHandler_finish. unfold_M.
    destruct (_finished h) eqn:Hf.
    + exists []. unfold traces, keeps. simpl. rewrite Hf. simpl.
      rewrite app_nil_r. by repeat split.
    + exists [EvSuperFinish]. unfold traces, keeps. simpl. rewrite Hf. simpl.
      by repeat split.
  - exists [EvWrite chunk]. by repeat split.
  - apply spec_raise.
Qed.

Lemma spec_exec body h : spec (exec body) h [].
Proof.
  revert h. induction body as [|c body IH]; intros h; [apply spec_ret|].
  change (exec (c :: body)) with (exec_cmd c ;; exec body).
  assert ([] = [] ++ match (exec_cmd c h).1 with
                     | Returned _ => []
                     | _ => @nil event
                     end) as -> by (by destruct (exec_cmd c h).1).
  apply (spec_bind (exec_cmd c) (fun _ => exec body) h [] (fun _ => []));
    [apply spec_exec_cmd | intros; apply IH].
Qed.

Lemma spec_done t h :
  spec (_done (Some (emit (EvResume t)))) h [EvResume t]
  /\ (_done (Some (emit (EvResume t))) h).1 = Returned tt.
Proof.
  split; [|done]. exists [EvDeactivate; EvResume t].
  repeat split; simpl; try done. by rewrite <- app_assoc.
Qed.

(** What a task amounts to, by the way its function is written. *)
Lemma Task_plain t entry f h :
  c_style f = Plain ->
  Task t entry (Engine f) h
  = (emit entry ;; exec (c_body f) ;;
     (if c_returns_value f then raise AssertionError
      else _done (Some (emit (EvResume t))))) h.
Proof.
  intros Hs. unfold Task. rewrite wrapper_unfold. unfold invoke.
  rewrite Hs. unfold_M. simpl.
  destruct (exec (c_body f) (add_log entry h)) as [[[]|e|e|] h1]; try done.
  by destruct (c_returns_value f).
Qed.

Lemma Task_generator t entry f h :
  c_style f = Suspending ->
  Task t entry (Engine f) h
  = (emit entry ;;
     match c_suspends_after f with
     | None => exec (c_body f) ;; _done (Some (emit (EvResume t)))
     | Some n =>
         exec (take n (c_body f)) ;;
         from_event_loop (exec (drop n (c_body f)) ;;
                          _done (Some (emit (EvResume t))))
     end) h.
Proof.
  intros Hs. unfold Task. rewrite wrapper_unfold. unfold invoke.
  rewrite Hs. unfold generator_of, Runner_run.
  by destruct (c_suspends_after f).
Qed.

Lemma spec_call entry (m : M unit) h sk :
  is_noise entry = false ->
  spec m (add_log entry h) sk -> spec (emit entry ;; m) h (entry :: sk).
Proof.
  intros Hentry Hm.
  exact (spec_bind (emit entry) (fun _ => m) h _ (fun _ => sk)
           (spec_emit entry h Hentry) (fun _ _ => Hm)).
Qed.

Lemma spec_body (b : list cmd) (k : M unit) h sk :
  (forall h1, spec k h1 sk) ->
  spec (exec b ;; k) h (match (exec b h).1 with Returned _ => sk | _ => [] end).
Proof.
  intros Hk.
  apply (spec_bind (exec b) (fun _ => k) h [] (fun _ => sk));
    [apply spec_exec | intros; apply Hk].
Qed.

(** The skeleton of a task: the call, and the resumption of the pipeline
    when the task returns. *)
Lemma Task_spec t entry f h :
  is_noise entry = false ->
  spec (Task t entry f) h
    (entry :: if returned (Task t entry f h).1 then [EvResume t] else []).
Proof.
  intros Hentry.
  assert (forall (m : M unit),
    ((emit entry ;; m) h).1 = (m (add_log entry h)).1) as Hout by done.
  set (cb := _done (Some (emit (EvResume t)))).
  assert (forall h1, spec cb h1 [EvResume t]) as Hcb
    by (intros h1; apply spec_done).
  assert (forall h1, spec (emit (EvResume t)) h1 [EvResume t]) as Hrs
    by (intros h1; by apply (spec_emit (EvResume t))).
  destruct f as [f|f].
  - destruct (c_style f) eqn:Hs.
    + (* a plain function behind callback_engine *)
      pose proof (Task_plain t entry f h Hs) as E. fold cb in E.
      apply (spec_ext _ _ _ _ (f_equal snd E)). rewrite E, Hout.
      assert (spec (emit entry ;; exec (c_body f) ;;
                    (if c_returns_value f then raise AssertionError else cb)) h
                (entry :: match (exec (c_body f) (add_log entry h)).1 with
                          | Returned _ =>
                              if c_returns_value f then [] else [EvResume t]
                          | _ => []
                          end)) as S.
      { apply spec_call, spec_body; [done|]. intros h1.
        destruct (c_returns_value f); [apply spec_raise | apply Hcb]. }
      revert S. unfold_M.
      destruct (exec (c_body f) (add_log entry h)) as [[[]|e|e|] h1];
        simpl; try done.
      by destruct (c_returns_value f).
    + (* a generator function behind callback_engine *)
      pose proof (Task_generator t entry f h Hs) as E. fold cb in E.
      apply (spec_ext _ _ _ _ (f_equal snd E)). rewrite E, Hout.
      destruct (c_suspends_after f) as [n|].
      * assert (spec (emit entry ;; exec (take n (c_body f)) ;;
                      from_event_loop (exec (drop n (c_body f)) ;; cb)) h
                  (entry :: match (exec (take n (c_body f)) (add_log entry h)).1
                            with
                            | Returned _ =>
                                match (exec (drop n (c_body f))
                                         (exec (take n (c_body f))
                                            (add_log entry h)).2).1 with
                                | Returned _ => [EvResume t]
                                | _ => []
                                end
                            | _ => []
                            end)) as S.
        { apply spec_call; [done|].
          apply (spec_bind (exec (take n (c_body f))) (fun _ => _) _ []
                   (fun _ => _)); [apply spec_exec|].
          intros [] _. apply spec_from_event_loop, spec_body, Hcb. }
        revert S. unfold_M.
        destruct (exec (take n (c_body f)) (add_log entry h))
          as [[[]|e|e|] h1]; simpl; try done.
        by destruct (exec (drop n (c_body f)) h1) as [[[]|e|e|] h2].
      * assert (spec (emit entry ;; exec (c_body f) ;; cb) h
                  (entry :: match (exec (c_body f) (add_log entry h)).1 with
                            | Returned _ => [EvResume t]
                            | _ => []
                            end)) as S by (by apply spec_call, spec_body, Hcb).
        revert S. unfold_M.
        by destruct (exec (c_body f) (add_log entry h)) as [[[]|e|e|] h1].
  - (* called as it is written *)
    unfold Task, call_bare.
    destruct (c_callback f), (c_style f); rewrite Hout.
    + by apply spec_call, spec_raise.
    + by apply spec_call, spec_raise.
    + assert (spec (emit entry ;; exec (c_body f) ;; stall) h
                (entry :: match (exec (c_body f) (add_log entry h)).1 with
                          | Returned _ => []
                          | _ => []
                          end)) as S
        by (apply spec_call, spec_body; [done|]; intros; apply spec_stall).
      revert S. unfold_M.
      by destruct (exec (c_body f) (add_log entry h)) as [[[]|e|e|] h1].
    + by apply spec_call, spec_stall.
    + assert (spec (emit entry ;; exec (c_body f) ;; emit (EvResume t)) h
                (entry :: match (exec (c_body f) (add_log entry h)).1 with
                          | Returned _ => [EvResume t]
                          | _ => []
                          end)) as S by (by apply spec_call, spec_body, Hrs).
      revert S. unfold_M.
      by destruct (exec (c_body f) (add_log entry h)) as [[[]|e|e|] h1].
    + by apply spec_call, spec_stall.
Qed.

(** ** The loops *)

Lemma done_count_le {A} (xs : list A) body h : done_count xs body h <= length xs.
Proof.
  revert h. induction xs as [|x xs IH]; intros h; simpl; [done|].
  destruct (body x h) as [[[]|e|e|] h1]; try lia. specialize (IH h1). lia.
Qed.

Lemma for_each_cons {A} (x : A) xs body :
  for_each (x :: xs) body = (body x ;; for_each xs body).
Proof. reflexivity. Qed.

Lemma for_each_returned {A} (xs : list A) body h :
  (for_each xs body h).1 = Returned tt <-> done_count xs body h = length xs.
Proof.
  revert h. induction xs as [|x xs IH]; intros h; simpl; [done|].
  unfold_M. destruct (body x h) as [[[]|e|e|] h1]; simpl; try done.
  rewrite IH. lia.
Qed.



Lemma stage_tasks_cons s m ms :
  stage_tasks s (m :: ms) = (stage_step s m ;; stage_tasks s ms).
Proof. reflexivity. Qed.

(** A stage loop calls the stages in order and stops at the first that
    does not return. *)
Lemma stage_tasks_spec s ms h :
  spec (stage_tasks s ms) h
    (stage_events s (done_count ms (stage_step s) h) ms).
Proof.
  revert h. induction ms as [|m ms IH]; intros h; [apply spec_ret|].
  rewrite stage_tasks_cons.
  pose proof (Task_spec (StageOf s (mw_name m)) (EvStage s (mw_name m))
                (stage_function s m) h eq_refl) as HT.
  fold (stage_step s m) in HT.
  pose proof (spec_bind (stage_step s m) (fun _ => stage_tasks s ms) h _
                (fun _ => stage_events s
                            (done_count ms (stage_step s) (stage_step s m h).2)
                            ms) HT (fun _ _ => IH _)) as H.
  cbn beta in H. simpl.
  by destruct (stage_step s m h) as [[[]|e|e|] h1]; simpl in *;
    rewrite ?app_nil_r in H.
Qed.

Lemma stage_loop_unfold s h :
  stage_loop s h = stage_tasks s (executed_middleware h) h.
Proof. reflexivity. Qed.

Lemma before_loop_cons m ms :
  before_loop (m :: ms) = (before_step m ;; before_loop ms).
Proof. reflexivity. Qed.

Lemma before_step_spec m h :
  exists tr, enters (before_step m) h tr
    (EvConstruct (mw_name m) :: EvStage before (mw_name m)
     :: if returned (before_step m h).1
        then [EvResume (StageOf before (mw_name m))] else []) [m].
Proof.
  set (h1 := set_executed_middleware (m :: executed_middleware h)
               (add_log (EvConstruct (mw_name m)) h)).
  assert (forall x, before_step m x
    = Task (StageOf before (mw_name m)) (EvStage before (mw_name m))
        (stage_function before m)
        (set_executed_middleware (m :: executed_middleware x)
           (add_log (EvConstruct (mw_name m)) x))) as E by done.
  destruct (Task_spec (StageOf before (mw_name m)) (EvStage before (mw_name m))
              (stage_function before m) h1 eq_refl)
    as (tr & [T1 T2] & Hs & K1 & K2 & K3 & K4).
  exists (EvConstruct (mw_name m) :: tr). unfold enters, traces.
  rewrite !E. fold h1. rewrite T1, T2, K1, K2, K3.
  repeat split; try done.
  - simpl. by rewrite <- app_assoc.
  - by rewrite skel_cons, Hs.
Qed.

Lemma before_loop_spec ms h :
  let c := done_count ms before_step h in
  exists tr, enters (before_loop ms) h tr (before_events c ms)
               (reverse (take (S c) ms)).
Proof.
  revert h. induction ms as [|m ms IH]; intros h.
  - exists []. unfold enters. split; [apply traces_ret|]. by repeat split.
  - rewrite before_loop_cons.
    destruct (before_step_spec m h) as (t1 & Ht1 & Hs1 & C1 & A1 & F1 & E1).
    destruct (returned (before_step m h).1) eqn:Hr.
    + apply returned_unit in Hr.
      destruct (IH (before_step m h).2) as (t2 & Ht2 & Hs2 & C2 & A2 & F2 & E2).
      exists (t1 ++ t2).
      assert (done_count (m :: ms) before_step h
              = S (done_count ms before_step (before_step m h).2)) as ->.
      { simpl. by destruct (before_step m h) as [[[]|e|e|] h1]. }
      unfold enters. split; [by eapply traces_bind|].
      rewrite (bind_returned _ _ _ _ Hr), skel_app, Hs1, Hs2, C2, A2, E2,
        C1, A1, E1.
      repeat split; auto.
      set (c := done_count ms _ _).
      change (take (S (S c)) (m :: ms)) with (m :: take (S c) ms).
      by rewrite reverse_cons, <- app_assoc.
    + exists t1.
      assert (done_count (m :: ms) before_step h = 0) as ->.
      { simpl. by destruct (before_step m h) as [[[]|e|e|] h1]. }
      unfold enters. split; [by apply traces_bind_passed|].
      rewrite (bind_passed _ _ _ Hr), Hs1. simpl.
      by repeat split.
Qed.

(** ** Reading the skeleton of a loop *)

Lemma stage_events_kind s c ms : all_of_kind (KStage s) (stage_events s c ms).
Proof.
  revert c. induction ms as [|m ms IH]; intros c; simpl; [constructor|].
  constructor; [done|]. destruct c; [constructor|].
  constructor; [done|apply IH].
Qed.

Lemma before_events_kind c ms : all_of_kind (KStage before) (before_events c ms).
Proof.
  revert c. induction ms as [|m ms IH]; intros c; simpl; [constructor|].
  constructor; [done|]. constructor; [done|]. destruct c; [constructor|].
  constructor; [done|apply IH].
Qed.

Lemma entered_stage_events s c ms :
  entered s (stage_events s c ms) = map mw_name (take (S c) ms).
Proof.
  revert c. induction ms as [|m ms IH]; intros c; [done|].
  simpl. rewrite same_stage_refl. f_equal. destruct c; simpl.
  - by destruct ms.
  - apply IH.
Qed.

Lemma completed_stage_events s c ms :
  completed s (stage_events s c ms) = map mw_name (take c ms).
Proof.
  revert c. induction ms as [|m ms IH]; intros c; [by destruct c|].
  destruct c; simpl; [done|]. rewrite same_stage_refl. f_equal. apply IH.
Qed.

Lemma entered_before_events c ms :
  entered before (before_events c ms) = map mw_name (take (S c) ms).
Proof.
  revert c. induction ms as [|m ms IH]; intros c; [done|].
  simpl. f_equal. destruct c; simpl.
  - by destruct ms.
  - apply IH.
Qed.

Lemma constructed_before_events c ms :
  constructed (before_events c ms) = map mw_name (take (S c) ms).
Proof.
  revert c. induction ms as [|m ms IH]; intros c; [done|].
  simpl. f_equal. destruct c; simpl.
  - by destruct ms.
  - apply IH.
Qed.

Lemma completed_before_events c ms :
  completed before (before_events c ms) = map mw_name (take c ms).
Proof.
  revert c. induction ms as [|m ms IH]; intros c; [by destruct c|].
  destruct c; simpl; [done|]. f_equal. apply IH.
Qed.

(** ** Validation, preparation, decoding *)

Lemma validate_skel_kind cls req : all_of_kind KHook (validate_skel cls req).
Proof.
  unfold validate_skel.
  destruct (bool_decide (method req ∈ SUPPORTED_METHODS cls)); [|constructor].
  apply all_of_kind_app.
  - destruct (xsrf_checked cls req); repeat constructor.
  - destruct (_ && _); repeat constructor.
Qed.

Lemma decode_events_kind raw : all_of_kind KHook (decode_events raw).
Proof.
  unfold decode_events. apply all_of_kind_app; apply Forall_forall;
    intros e He; apply list_elem_of_fmap in He as (? & -> & _); done.
Qed.

Lemma spec_prepare cls h :
  spec (emit EvPrepare ;; exec (prepare cls)) h [EvPrepare].
Proof. apply spec_call; [done | apply spec_exec]. Qed.

Lemma validate_prepare_spec cls req h :
  spec (validate_prepare cls req) h (validate_skel cls req).
Proof.
  unfold validate_prepare, validate_skel. fold (xsrf_checked cls req).
  destruct (bool_decide (method req ∈ SUPPORTED_METHODS cls)).
  - destruct (xsrf_checked cls req); simpl.
    + unfold check_xsrf_cookie. destruct (xsrf_cookie_valid req); simpl.
      * apply (spec_ext (emit EvCheckXsrf ;; emit EvPrepare ;; exec (prepare cls)));
          [reflexivity|].
        apply (spec_call EvCheckXsrf); [done | apply spec_prepare].
      * apply (spec_ext (emit EvCheckXsrf ;; raise (HTTPError 403)));
          [reflexivity|].
        apply (spec_call EvCheckXsrf); [done | apply spec_raise].
    + apply (spec_ext (emit EvPrepare ;; exec (prepare cls))); [reflexivity|].
      apply spec_prepare.
  - apply (spec_ext (raise (HTTPError 405))); [reflexivity | apply spec_raise].
Qed.

(** Validation and preparation end in the frame of [_execute]. *)
Lemma validate_prepare_sync cls req h :
  (validate_prepare cls req h).1 = Returned tt
  \/ exists e, (validate_prepare cls req h).1 = Raised e.
Proof.
  unfold validate_prepare, check_xsrf_cookie.
  destruct (bool_decide (method req ∈ SUPPORTED_METHODS cls));
    [|right; eexists; reflexivity].
  destruct (_ && _); [destruct (xsrf_cookie_valid req)|].
  - apply (exec_sync (prepare cls)).
  - right. eexists. reflexivity.
  - apply (exec_sync (prepare cls)).
Qed.

Lemma validate_prepare_returned cls req h :
  (validate_prepare cls req h).1 = Returned tt ->
  validate_skel cls req
  = (if xsrf_checked cls req then [EvCheckXsrf] else []) ++ [EvPrepare].
Proof.
  unfold validate_prepare, validate_skel, check_xsrf_cookie.
  fold (xsrf_checked cls req).
  destruct (bool_decide (method req ∈ SUPPORTED_METHODS cls)); [|done].
  destruct (xsrf_checked cls req); [|done].
  by destruct (xsrf_cookie_valid req).
Qed.

Lemma validate_result_None cls req h :
  validate_result cls req h = None <->
  (validate_prepare cls req (entry_state h)).1 = Returned tt.
Proof.
  unfold validate_result.
  destruct (validate_prepare_sync cls req (entry_state h)) as [->|[e ->]];
    split; done.
Qed.

Lemma add_logs_add_log e l h : add_logs l (add_log e h) = add_logs (e :: l) h.
Proof. unfold add_logs, add_log. simpl. by rewrite <- app_assoc. Qed.

Lemma add_logs_nil h : add_logs [] h = h.
Proof. destruct h. unfold add_logs. simpl. by rewrite app_nil_r. Qed.

Lemma add_logs_app l1 l2 h : add_logs l2 (add_logs l1 h) = add_logs (l1 ++ l2) h.
Proof. unfold add_logs. simpl. by rewrite app_assoc. Qed.

Lemma decode_list_spec cls args h :
  decode_list cls args h
  = (Returned (map (fun a => decode_argument cls a None) args),
     add_logs (map (fun a => EvDecode a None) args) h).
Proof.
  revert h. induction args as [|a args IH]; intros h; simpl.
  - by rewrite add_logs_nil.
  - unfold_M. simpl. rewrite IH. simpl. by rewrite add_logs_add_log.
Qed.

Lemma decode_dict_spec cls kwargs h :
  decode_dict cls kwargs h
  = (Returned (map (fun kv => (fst kv, decode_argument cls (snd kv)
                                         (Some (fst kv)))) kwargs),
     add_logs (map (fun kv => EvDecode (snd kv) (Some (fst kv))) kwargs) h).
Proof.
  revert h. induction kwargs as [|[k v] kwargs IH]; intros h; simpl.
  - by rewrite add_logs_nil.
  - unfold_M. simpl. rewrite IH. simpl. by rewrite add_logs_add_log.
Qed.

Lemma decoded_args_cached cls raw h c :
  _cached_args h = Some c -> decoded_args cls raw h = (Returned c, h).
Proof. intros Hc. unfold decoded_args. unfold_M. by rewrite Hc. Qed.

Lemma decoded_args_fresh cls raw h :
  _cached_args h = None ->
  decoded_args cls raw h
  = (Returned (decoded cls raw),
     set_cached_args (Some (decoded cls raw)) (add_logs (decode_events raw) h)).
Proof.
  intros Hc. unfold decoded_args. unfold_M. rewrite Hc.
  rewrite decode_list_spec, decode_dict_spec. simpl.
  by rewrite add_logs_app.
Qed.

Lemma quiet_events l init :
  Forall (fun e => is_noise e = false) l -> skel l = l /\ pending init l = init.
Proof.
  induction 1 as [|e l He _ [IH1 IH2]]; [done|].
  rewrite (skel_cons e l He), IH1. split; [done|].
  unfold pending in *. simpl. by destruct e.
Qed.

Lemma decode_events_quiet raw :
  Forall (fun e => is_noise e = false) (decode_events raw).
Proof.
  unfold decode_events. apply Forall_app. split; apply Forall_forall;
    intros e He; apply list_elem_of_fmap in He as (? & -> & _); done.
Qed.

(** Decoding: the arguments come from the cache when there is one, and are
    decoded and cached otherwise. *)
Lemma decoded_args_spec cls raw h :
  let td := match _cached_args h with
            | Some _ => []
            | None => decode_events raw
            end in
  let args := call_arguments cls raw (_cached_args h) in
  exists hd, decoded_args cls raw h = (Returned args, hd) /\
    traces (decoded_args cls raw) h td /\ skel td = td /\
    _called_once hd = _called_once h /\ _cached_args hd = Some args /\
    executed_middleware hd = executed_middleware h /\
    _finished hd = _finished h.
Proof.
  intros td args. subst td args. unfold call_arguments, traces.
  destruct (_cached_args h) as [c|] eqn:Hc.
  - exists h. rewrite (decoded_args_cached _ _ _ _ Hc), app_nil_r.
    by repeat split.
  - eexists. rewrite (decoded_args_fresh _ _ _ Hc).
    destruct (quiet_events _ (_redirection h) (decode_events_quiet raw))
      as [Q1 Q2].
    rewrite Q1, Q2. by repeat split.
Qed.

(** ** The finish step *)

Lemma RequestHandler_redirect_spec a h :
  RequestHandler_redirect a h
  = match redirect_error a (_headers_written h) with
    | Some e => (Raised e, h)
    | None => (Returned tt, add_log (EvSuperRedirect a) h)
    end.
Proof.
  unfold RequestHandler_redirect, redirect_error, finish. unfold_M.
  destruct (redirect_binds a); simpl; [|done].
  destruct (_headers_written h); simpl; [done|].
  by destruct (from_option is_redirect_status true (status_argument a)).
Qed.

Lemma finish_step_spec h :
  finish_step h
  = match finish_error h with
    | Some e => (Raised e, h)
    | None =>
        (Returned tt,
         (if _finished h then fun x => x
          else fun x => set_finished true (set_headers_written true x))
           (add_logs (finish_sends (_redirection h) (_finished h)) h))
    end.
Proof.
  unfold finish_step, try_redirect, finish_error, finish_sends, do_finish,
    RequestHandler_finish.
  unfold_M. destruct (_redirection h) as [a|] eqn:Hr.
  - rewrite RequestHandler_redirect_spec.
    destruct (redirect_error a (_headers_written h)); [done|]. simpl.
    destruct (_finished h) eqn:Hf; simpl; rewrite ?Hf; simpl.
    + unfold add_logs, add_log. simpl. destruct h; simpl in *. by subst.
    + unfold add_logs, add_log, set_finished, set_headers_written. simpl.
      by rewrite <- app_assoc.
  - destruct (_finished h) eqn:Hf; simpl; rewrite ?Hf; simpl.
    + by rewrite add_logs_nil.
    + done.
Qed.

Lemma finish_sends_skel pend fin :
  skel (finish_sends pend fin)
  = match pend with Some a => [EvSuperRedirect a] | None => [] end.
Proof. unfold finish_sends. by destruct pend, fin. Qed.

Lemma finish_sends_pending pend fin init :
  pending init (finish_sends pend fin) = init.
Proof. unfold finish_sends. by destruct pend, fin. Qed.

(** The finish step, when it goes through: what it sends, what it keeps. *)
Lemma finish_step_returned h :
  finish_error h = None ->
  (finish_step h).1 = Returned tt /\
  spec finish_step h
    (match _redirection h with Some a => [EvSuperRedirect a] | None => [] end) /\
  news finish_step h = finish_sends (_redirection h) (_finished h) /\
  _finished (finish_step h).2 = true.
Proof.
  intros He. rewrite finish_step_spec, He. split; [done|].
  assert (traces finish_step h (finish_sends (_redirection h) (_finished h)))
    as Ht.
  { unfold traces. rewrite finish_step_spec, He, finish_sends_pending.
    by destruct (_finished h). }
  split; [|split].
  - exists (finish_sends (_redirection h) (_finished h)).
    split; [done|]. split; [apply finish_sends_skel|].
    unfold keeps. rewrite finish_step_spec, He.
    destruct (_finished h) eqn:Hf; simpl; by repeat split.
  - by rewrite (traces_news _ _ _ Ht).
  - simpl. by destruct (_finished h) eqn:Hf.
Qed.

Lemma finish_step_failed h e :
  finish_error h = Some e -> finish_step h = (Raised e, h).
Proof. intros He. by rewrite finish_step_spec, He. Qed.

(** ** The [try] statement *)

Lemma guarded_state cls req rm args h :
  (guarded cls req rm args h).2
  = (((if rm then before_loop (middleware cls) else ret tt) ;;
      action_task cls req args) h).2.
Proof.
  unfold guarded, try_except.
  destruct (((if rm then before_loop (middleware cls) else ret tt) ;;
             action_task cls req args) h) as [[[]|e|e|] h1]; try done.
  simpl. by destruct (is_InterruptRequest e).
Qed.

Lemma guarded_outcome cls req rm args h :
  (guarded cls req rm args h).1
  = match (((if rm then before_loop (middleware cls) else ret tt) ;;
            action_task cls req args) h).1 with
    | Raised e => if is_InterruptRequest e then Returned tt else Raised e
    | o => o
    end.
Proof.
  unfold guarded, try_except.
  destruct (((if rm then before_loop (middleware cls) else ret tt) ;;
             action_task cls req args) h) as [[[]|e|e|] h1]; try done.
  simpl. by destruct (is_InterruptRequest e).
Qed.

Lemma before_loop_if (rm : bool) cls h :
  (if rm then before_loop (middleware cls) else ret tt) h
  = before_loop (if rm then middleware cls else []) h.
Proof. by destruct rm. Qed.

Lemma action_task_spec cls req args h :
  exists act, spec (action_task cls req args) h act /\
    all_of_kind KAction act /\
    actions act = [(lower (method req), args)].
Proof.
  pose proof (Task_spec (ActionOf (lower (method req)))
                (EvAction (lower (method req)) args)
                (getattr_method cls (lower (method req))) h eq_refl) as H.
  eexists. split; [exact H|].
  fold (action_task cls req args).
  destruct (returned (action_task cls req args h).1);
    split; try done; by repeat constructor.
Qed.

(** The [try] statement: the [before] loop, then the action when the loop
    ran to its end. *)
Lemma guarded_spec cls req (rm : bool) args h :
  let mws := if rm then middleware cls else [] in
  let c := done_count mws before_step h in
  exists tr act,
    enters (guarded cls req rm args) h tr (before_events c mws ++ act)
      (reverse (take (S c) mws)) /\
    all_of_kind KAction act /\
    actions act = (if bool_decide (c = length mws)
                   then [(lower (method req), args)] else []).
Proof.
  intros mws c.
  destruct (before_loop_spec mws h) as (tb & Htb & Hsb & C1 & A1 & F1 & E1).
  fold c in Hsb, E1.
  pose proof (for_each_returned mws before_step h) as Hiff. fold c in Hiff.
  change (for_each mws before_step) with (before_loop mws) in Hiff.
  unfold enters, traces. rewrite guarded_state.
  assert (forall x, ((if rm then before_loop (middleware cls) else ret tt) ;;
                     action_task cls req args) x
                    = (before_loop mws ;; action_task cls req args) x) as ->.
  { intros x. subst mws. by destruct rm. }
  destruct (returned (before_loop mws h).1) eqn:Hr.
  - apply returned_unit in Hr.
    destruct (action_task_spec cls req args (before_loop mws h).2)
      as (act & (ta & Hta & Hsa & K1 & K2 & K3 & K4) & Hka & Haa).
    exists (tb ++ ta), act.
    rewrite (bool_decide_eq_true_2 _ (proj1 Hiff Hr)).
    split; [|done].
    pose proof (traces_bind _ (fun _ => action_task cls req args) h tt tb ta
                  Hr Htb Hta) as [T1 T2].
    rewrite (bind_returned _ _ _ _ Hr), skel_app, Hsb, Hsa, K1, K2, K3, C1,
      A1, E1.
    rewrite (bind_returned _ _ _ _ Hr) in T1, T2.
    repeat split; auto.
  - exists tb, [].
    assert (c <> length mws) as Hne.
    { intros Hc. apply Hiff in Hc. by rewrite Hc in Hr. }
    rewrite (bool_decide_eq_false_2 _ Hne), app_nil_r.
    split; [|split; [constructor|done]].
    destruct Htb as [T1 T2].
    rewrite (bind_passed _ _ _ Hr). simpl.
    repeat split; auto.
Qed.

(** ** A first call up to the end of the [try] statement *)

Lemma try_block_spec cls req raw hb :
  let passes := returned (validate_prepare cls req hb).1 in
  let mws := if passes then middleware cls else [] in
  let args := call_arguments cls raw (_cached_args hb) in
  let c := done_count mws before_step (prologue cls req raw hb).2 in
  let td := if passes then match _cached_args hb with
                           | Some _ => []
                           | None => decode_events raw
                           end
            else [] in
  exists tm act,
    traces (try_block cls req raw) hb tm /\
    skel tm = validate_skel cls req ++ td ++ before_events c mws ++ act /\
    all_of_kind KAction act /\
    actions act = (if passes && bool_decide (c = length mws)
                   then [(lower (method req), args)] else []) /\
    executed_middleware (try_block cls req raw hb).2
      = reverse (take (S c) mws) ++ executed_middleware hb /\
    _called_once (try_block cls req raw hb).2 = _called_once hb /\
    (passes = true -> _cached_args (try_block cls req raw hb).2 = Some args) /\
    (_finished hb = true -> _finished (try_block cls req raw hb).2 = true).
Proof.
  intros passes mws args c td.
  destruct (validate_prepare_spec cls req hb)
    as (tv & Htv & Hsv & V1 & V2 & V3 & V4).
  subst c. unfold try_block, prologue in *.
  destruct (returned (validate_prepare cls req hb).1) eqn:Hp;
    subst passes mws td; cbn match in *.
  - apply returned_unit in Hp.
    set (hv := (validate_prepare cls req hb).2) in *.
    destruct (decoded_args_spec cls raw hv)
      as (hd & Hd & Htd & Hsd & D1 & D2 & D3 & D4).
    rewrite V2 in Hd, Htd, Hsd, D2. fold args in Hd, D2.
    set (td := match _cached_args hb with Some _ => [] | None => _ end) in *.
    assert ((decoded_args cls raw hv).1 = Returned args) as Hd1
      by (by rewrite Hd).
    assert ((validate_prepare cls req ;; decoded_args cls raw) hb
            = (Returned args, hd)) as Hpr
      by (by rewrite (bind_returned _ _ _ _ Hp)).
    assert (((validate_prepare cls req ;; decoded_args cls raw) hb).1
            = Returned args) as Hpr1 by (by rewrite Hpr).
    assert (traces (validate_prepare cls req ;; decoded_args cls raw) hb
              (tv ++ td)) as Htp by (by eapply traces_bind).
    assert (((validate_prepare cls req ;; decoded_args cls raw) hb).2 = hd)
      as Ehd by (by rewrite Hpr).
    destruct (guarded_spec cls req true args hd)
      as (tg & act & (Htg & Hsg & G1 & G2 & G3 & G4) & Hka & Haa).
    cbn match in Hsg, G4, Haa. cbn zeta in Hsg, G4, Haa.
    exists ((tv ++ td) ++ tg), act.
    rewrite <- Ehd in Htg.
    split; [by eapply traces_bind|].
    rewrite (bind_returned _ _ _ _ Hpr1), Ehd.
    rewrite !skel_app, Hsv, Hsd, Hsg, <- !app_assoc, G1, G2, G4, D1, D3, V1, V3.
    repeat split; auto.
    intros Hf. apply G3. rewrite D4. by apply V4.
  - exists tv, [].
    assert (returned ((validate_prepare cls req ;; decoded_args cls raw) hb).1
            = false) as Hpr.
    { rewrite (bind_passed _ _ _ Hp). apply passed_not_returned. }
    split; [apply traces_bind_passed; [done|]; by apply traces_bind_passed|].
    rewrite (bind_passed _ _ _ Hpr), (bind_passed _ _ _ Hp). simpl.
    rewrite Hsv, !app_nil_r. repeat split; auto; [constructor | done].
Qed.

(** ** The cleanup block *)

Lemma finish_sends_kind pend fin : all_of_kind KSend (skel (finish_sends pend fin)).
Proof. rewrite finish_sends_skel. destruct pend; repeat constructor. Qed.

Lemma cleanup_shape hc :
  let ms := executed_middleware hc in
  let ca := done_count ms (stage_step after) hc in
  let ha := (stage_loop after hc).2 in
  exists ta tf tz lz cz,
    traces (stage_loop after) hc ta /\ skel ta = stage_events after ca ms /\
    keeps (stage_loop after) hc /\
    log (cleanup hc).2 = log hc ++ ta ++ tf ++ tz /\
    all_of_kind KSend (skel tf) /\
    skel tz = stage_events after_finish cz lz /\ (lz = [] \/ lz = ms) /\
    ((stage_loop after hc).1 = Returned tt ->
     ca = length ms /\
     match finish_error ha with
     | Some e => tf = [] /\ lz = [] /\ cleanup hc = (Raised e, ha)
     | None =>
         tf = finish_sends (_redirection ha) (_finished ha) /\ lz = ms /\
         cz = done_count ms (stage_step after_finish) (finish_step ha).2 /\
         cleanup hc = stage_loop after_finish (finish_step ha).2
     end) /\
    ((stage_loop after hc).1 <> Returned tt ->
     tf = [] /\ lz = [] /\ returned (cleanup hc).1 = false) /\
    ((cleanup hc).1 = Returned tt ->
     (stage_loop after hc).1 = Returned tt /\ finish_error ha = None /\
     cz = length ms).
Proof.
  intros ms ca ha.
  destruct (stage_tasks_spec after ms hc) as (ta & Hta0 & Hsa & Hka0).
  fold ca in Hsa.
  assert (traces (stage_loop after) hc ta) as Hta by exact Hta0.
  assert (keeps (stage_loop after) hc) as Hka by exact Hka0.
  clear Hta0 Hka0.
  pose proof (for_each_returned ms (stage_step after) hc) as Hiffa.
  change (for_each ms (stage_step after) hc) with (stage_loop after hc) in Hiffa.
  fold ca in Hiffa.
  unfold cleanup.
  destruct (returned (stage_loop after hc).1) eqn:Hr.
  - apply returned_unit in Hr. rewrite (bind_returned _ _ _ _ Hr). fold ha.
    pose proof Hka as (_ & _ & Hex & _). fold ha in Hex.
    destruct (finish_error ha) as [e|] eqn:Hfe.
    + exists ta, [], [], [], 0.
      rewrite (bind_passed finish_step _ ha)
        by (by rewrite (finish_step_failed _ _ Hfe)).
      rewrite (finish_step_failed _ _ Hfe). simpl.
      pose proof Hta as [Hl _]. fold ha in Hl. rewrite Hl, !app_nil_r.
      repeat split; try done; try (by left); try apply Hta; try apply Hka;
        try (by constructor); by apply Hiffa.
    + destruct (finish_step_returned ha Hfe)
        as (Hfr & (tf0 & [Hlf _] & _ & (_ & _ & Hexf & _)) & Hnf & _).
      rewrite (bind_returned _ _ _ _ Hfr).
      set (hf := (finish_step ha).2) in *.
      assert (news finish_step ha = tf0) as Etf'
        by (apply news_of; exact Hlf).
      rewrite Hnf in Etf'. subst tf0.
      destruct (stage_tasks_spec after_finish ms hf) as (tz & [Hlz _] & Hsz & _).
      pose proof (for_each_returned ms (stage_step after_finish) hf) as Hiffz.
      assert (stage_loop after_finish hf = stage_tasks after_finish ms hf) as Elz.
      { rewrite stage_loop_unfold. by rewrite Hexf, Hex. }
      exists ta, (finish_sends (_redirection ha) (_finished ha)), tz, ms,
        (done_count ms (stage_step after_finish) hf).
      pose proof Hta as [Hl _]. fold ha in Hl.
      rewrite Elz, Hlz. fold hf in Hlf. rewrite Hlf, Hl, <- !app_assoc.
      repeat split; try done; try (by right); try apply Hta; try apply Hka;
        try (by apply Hiffa); try apply finish_sends_kind.
      by apply Hiffz.
  - exists ta, [], [], [], 0.
    rewrite (bind_passed _ _ _ Hr). simpl.
    pose proof Hta as [Hl _]. rewrite Hl, !app_nil_r.
    repeat split; try done; try (by left); try apply Hta; try apply Hka;
      try (by constructor);
      try (apply passed_not_returned);
      try match goal with
          | H : (stage_loop after hc).1 = Returned _ |- _ => by rewrite H in Hr
          end;
      try match goal with
          | H : passed (stage_loop after hc).1 = Returned _ |- _ =>
              by destruct (stage_loop after hc).1
          end.
Qed.

Lemma stage_loop_keeps s h : keeps (stage_loop s) h.
Proof.
  destruct (stage_tasks_spec s (executed_middleware h) h) as (tr & _ & _ & K).
  exact K.
Qed.

Lemma finish_step_keeps h : keeps finish_step h.
Proof.
  destruct (finish_error h) as [e|] eqn:He.
  - unfold keeps. by rewrite (finish_step_failed _ _ He).
  - by destruct (finish_step_returned h He) as (_ & (tr & _ & _ & K) & _).
Qed.

Lemma cleanup_keeps h : keeps cleanup h.
Proof.
  unfold cleanup. apply keeps_bind; [apply stage_loop_keeps|]. intros _ _.
  apply keeps_bind; [apply finish_step_keeps|]. intros _ _.
  apply stage_loop_keeps.
Qed.

(** ** The pipeline in blocks *)

Lemma _execute_body_blocks cls req raw :
  _execute_body cls req raw =
    (run_middleware ← get (fun h => negb (_called_once h));
     modify (set_called_once true) ;;
     modify (set_executed_middleware []) ;;
     (if run_middleware : bool then validate_prepare cls req else ret tt) ;;
     args ← decoded_args cls raw;
     guarded cls req run_middleware args ;;
     if run_middleware : bool then cleanup else ret tt).
Proof. reflexivity. Qed.

Lemma _execute_body_first cls req raw h :
  _called_once h = false ->
  _execute_body cls req raw h
  = (try_block cls req raw ;; cleanup) (entry_state h).
Proof.
  intros Hc. rewrite _execute_body_blocks.
  transitivity
    ((fun rm : bool =>
        ((if rm then validate_prepare cls req else ret tt) ;;
         args ← decoded_args cls raw;
         guarded cls req rm args ;;
         if rm then cleanup else ret tt) (entry_state h))
       (negb (_called_once h))); [reflexivity|].
  rewrite Hc. simpl. unfold try_block, prologue. unfold_M.
  destruct (validate_prepare cls req (entry_state h)) as [[[]|e|e|] h1];
    try done.
  by destruct (decoded_args cls raw h1) as [[args|e|e|] h2].
Qed.

Lemma _execute_body_reentrant cls req raw h :
  _called_once h = true ->
  _execute_body cls req raw h
  = (args ← decoded_args cls raw; guarded cls req false args) (entry_state h).
Proof.
  intros Hc. rewrite _execute_body_blocks.
  transitivity
    ((fun rm : bool =>
        ((if rm then validate_prepare cls req else ret tt) ;;
         args ← decoded_args cls raw;
         guarded cls req rm args ;;
         if rm then cleanup else ret tt) (entry_state h))
       (negb (_called_once h))); [reflexivity|].
  rewrite Hc. simpl. unfold_M.
  destruct (decoded_args cls raw (entry_state h)) as [[args|e|e|] h1];
    try done.
  by destruct (guarded cls req false args h1) as [[[]|e|e|] h2].
Qed.

Lemma before_finish_cleanup cls req raw hb :
  (try_block cls req raw ;; cleanup) hb
  = (before_finish cls req raw ;; finish_step ;; stage_loop after_finish) hb.
Proof.
  unfold before_finish, cleanup. unfold_M.
  destruct (try_block cls req raw hb) as [[[]|e|e|] h1]; try done.
Qed.

(** ** The shape of a first call *)

Lemma first_call_shape cls req raw h :
  _called_once h = false ->
  let hb := entry_state h in
  let passes := returned (validate_prepare cls req hb).1 in
  let mws := if passes then middleware cls else [] in
  let c := done_count mws before_step (before_state cls req raw h) in
  let E := reverse (take (S c) mws) in
  let ha := finish_state cls req raw h in
  let td := if passes then match _cached_args h with
                           | Some _ => []
                           | None => decode_events raw
                           end
            else [] in
  let args := call_arguments cls raw (_cached_args h) in
  exists tm act ta tf tz la ca lz cz,
    news (_execute_body cls req raw) h = tm ++ ta ++ tf ++ tz /\
    traces (try_block cls req raw) hb tm /\
    traces (before_finish cls req raw) hb (tm ++ ta) /\
    skel tm = validate_skel cls req ++ td ++ before_events c mws ++ act /\
    all_of_kind KAction act /\
    actions act = (if passes && bool_decide (c = length mws)
                   then [(lower (method req), args)] else []) /\
    skel ta = stage_events after ca la /\
    all_of_kind KSend (skel tf) /\
    skel tz = stage_events after_finish cz lz /\
    (la = [] \/ la = E) /\ (lz = [] \/ lz = E) /\
    ((try_block cls req raw hb).1 = Returned tt -> la = E) /\
    ((before_finish cls req raw hb).1 = Returned tt ->
     la = E /\ ca = length E /\ executed_middleware ha = E /\
     match finish_error ha with
     | Some e =>
         tf = [] /\ lz = [] /\ _execute_body cls req raw h = (Raised e, ha)
     | None =>
         tf = finish_sends (_redirection ha) (_finished ha) /\ lz = E /\
         cz = done_count E (stage_step after_finish) (finish_step ha).2 /\
         _execute_body cls req raw h
         = stage_loop after_finish (finish_step ha).2
     end) /\
    ((before_finish cls req raw hb).1 <> Returned tt ->
     tf = [] /\ lz = [] /\ returned (_execute_body cls req raw h).1 = false) /\
    ((_execute_body cls req raw h).1 = Returned tt ->
     (before_finish cls req raw hb).1 = Returned tt /\
     finish_error ha = None /\ cz = length E) /\
    _called_once (_execute_body cls req raw h).2 = true /\
    (passes = true ->
     _cached_args (_execute_body cls req raw h).2 = Some args).
Proof.
  intros Hc hb passes mws c E ha td args.
  destruct (try_block_spec cls req raw hb)
    as (tm & act & Htm & Hsm & Hka & Haa & Hex & Hco & Hca & _).
  change (_cached_args hb) with (_cached_args h) in Hsm, Haa, Hca.
  change (executed_middleware hb) with (@nil middleware_class) in Hex.
  change (_called_once hb) with true in Hco.
  fold passes mws td args in Hsm, Haa, Hex, Hca.
  change ((prologue cls req raw hb).2) with (before_state cls req raw h)
    in Hsm, Haa, Hex.
  fold c in Hsm, Haa, Hex. rewrite app_nil_r in Hex. fold E in Hex.
  assert (forall tr, log ((try_block cls req raw ;; cleanup) hb).2
                     = log hb ++ tr ->
          news (_execute_body cls req raw) h = tr) as Hnews.
  { intros tr Htr. unfold news. rewrite (_execute_body_first _ _ _ _ Hc).
    fold hb. rewrite Htr. change (log hb) with (log h).
    apply drop_app_length. }
  rewrite (_execute_body_first _ _ _ _ Hc). fold hb.
  set (hc := (try_block cls req raw hb).2) in *.
  assert (ha = (before_finish cls req raw hb).2) as Eha by done.
  destruct (returned (try_block cls req raw hb).1) eqn:Hr.
  - apply returned_unit in Hr.
    destruct (cleanup_shape hc)
      as (ta & tf & tz & lz & cz & Hta & Hsa & Hkeep & Hlog & Hkf & Hsz & Hlz
          & Hfin & Hnofin & Hret).
    rewrite Hex in Hsa, Hlz, Hfin, Hret.
    assert (before_finish cls req raw hb
            = (try_block cls req raw ;; stage_loop after) hb) as Ebf by done.
    assert ((before_finish cls req raw hb).1 = (stage_loop after hc).1) as Eo.
    { rewrite Ebf. by rewrite (bind_returned _ _ _ _ Hr). }
    assert (ha = (stage_loop after hc).2) as Eha'.
    { rewrite Eha, Ebf. by rewrite (bind_returned _ _ _ _ Hr). }
    assert (executed_middleware ha = E) as Hexa.
    { rewrite Eha'. destruct Hkeep as (_ & _ & K3 & _). by rewrite K3. }
    rewrite <- Eha' in Hfin, Hret.
    exists tm, act, ta, tf, tz, E, (done_count E (stage_step after) hc), lz, cz.
    pose proof (cleanup_keeps hc) as (CK1 & CK2 & _).
    rewrite (bind_returned _ _ _ _ Hr). fold hc. rewrite Eo.
    split.
    { apply Hnews. rewrite (bind_returned _ _ _ _ Hr). fold hc.
      destruct Htm as [Hl _]. fold hc in Hl. by rewrite Hlog, Hl, <- !app_assoc. }
    split; [done|]. split; [by eapply traces_bind|].
    rewrite CK1, CK2.
    repeat split; try done; try (by right); try (by apply Hfin);
      try (by apply Hnofin); try (by apply Hret).
    all: try by apply Hca.
  - exists tm, act, [], [], [], [], 0, [], 0.
    assert (returned (before_finish cls req raw hb).1 = false) as Hbf.
    { unfold before_finish. rewrite (bind_passed _ _ _ Hr).
      apply passed_not_returned. }
    rewrite (bind_passed _ _ _ Hr), !app_nil_r. cbn [fst snd]. fold hc.
    split.
    { apply Hnews. rewrite (bind_passed _ _ _ Hr). simpl. apply Htm. }
    split; [done|]. split; [by apply traces_bind_passed|].
    repeat split; try done; try (by left); try (by constructor);
      try (apply passed_not_returned);
      try match goal with
          | H : (before_finish cls req raw hb).1 = Returned _ |- _ =>
              by rewrite H in Hbf
          | H : passed (try_block cls req raw hb).1 = Returned _ |- _ =>
              by destruct (try_block cls req raw hb).1
          end;
      try (intros Htb; by rewrite Htb in Hr).
    all: by apply Hca.
Qed.

(** ** Reading the log of a first call *)

Lemma reading_dispatch {X} (f : event -> option X) K tm ta tf tz vs td bs act
    sa sz :
  reads f K -> K <> KNone ->
  skel tm = vs ++ td ++ bs ++ act -> skel ta = sa -> skel tz = sz ->
  omap f (tm ++ ta ++ tf ++ tz)
  = (omap f vs ++ omap f td ++ omap f bs ++ omap f act)
    ++ omap f sa ++ omap f (skel tf) ++ omap f sz.
Proof.
  intros Hf HK Hm Ha Hz.
  rewrite !omap_app, <- (omap_skel f K tm Hf HK), <- (omap_skel f K ta Hf HK),
    <- (omap_skel f K tf Hf HK), <- (omap_skel f K tz Hf HK).
  by rewrite Hm, Ha, Hz, !omap_app.
Qed.

Lemma hooks_of_hooks l : all_of_kind KHook l -> hooks l = l.
Proof.
  induction 1 as [|e l He _ IH]; [done|].
  change (hooks (e :: l))
    with (match (match e with
                 | EvPrepare | EvCheckXsrf | EvDecode _ _ => Some e
                 | _ => None
                 end) with
          | Some y => y :: hooks l
          | None => hooks l
          end).
  rewrite IH. destruct e; try done. by destruct t.
Qed.

Lemma td_kind (passes : bool) (cached : option call_args) raw :
  all_of_kind KHook
    (if passes then match cached with
                    | Some _ => []
                    | None => decode_events raw
                    end
     else []).
Proof.
  destruct passes; [|constructor].
  destruct cached; [constructor | apply decode_events_kind].
Qed.

(** The middleware that a loop reaches are a start of its list. *)
Lemma take_names_prefix {A B} (f : A -> B) n (l l' : list A) :
  l = [] \/ l = l' -> map f (take n l) `prefix_of` map f l'.
Proof.
  intros [->| ->]; [rewrite take_nil; apply prefix_nil|].
  apply map_prefix, prefix_take.
Qed.

Lemma take_succ_length {A} (l : list A) : take (S (length l)) l = l.
Proof. apply take_ge. lia. Qed.


(** Each reading of the log of a first call looks at one part of it. *)
Ltac gone K K' l R H :=
  rewrite (omap_other _ K K' l R); [|discriminate|exact H].

Lemma shape_readings evs tm ta tf tz vs td c mws act la ca lz cz :
  evs = tm ++ ta ++ tf ++ tz ->
  skel tm = vs ++ td ++ before_events c mws ++ act ->
  all_of_kind KHook vs -> all_of_kind KHook td -> all_of_kind KAction act ->
  skel ta = stage_events after ca la ->
  all_of_kind KSend (skel tf) ->
  skel tz = stage_events after_finish cz lz ->
  hooks evs = vs ++ td /\
  constructed evs = map mw_name (take (S c) mws) /\
  entered before evs = map mw_name (take (S c) mws) /\
  completed before evs = map mw_name (take c mws) /\
  actions evs = actions act /\
  entered after evs = map mw_name (take (S ca) la) /\
  completed after evs = map mw_name (take ca la) /\
  entered after_finish evs = map mw_name (take (S cz) lz) /\
  completed after_finish evs = map mw_name (take cz lz) /\
  sent evs = sent (skel tf).
Proof.
  intros -> Hm Hkv Hkd Hka Ha Hkf Hz.
  pose proof (before_events_kind c mws) as Hkb.
  pose proof (stage_events_kind after ca la) as Hksa.
  pose proof (stage_events_kind after_finish cz lz) as Hksz.
  repeat split.
  - unfold hooks.
    rewrite (reading_dispatch _ KHook _ _ _ _ _ _ _ _ _ _ reads_hooks
               ltac:(discriminate) Hm Ha Hz).
    gone KHook (KStage before) (before_events c mws) reads_hooks Hkb.
    gone KHook KAction act reads_hooks Hka.
    gone KHook (KStage after) (stage_events after ca la) reads_hooks Hksa.
    gone KHook KSend (skel tf) reads_hooks Hkf.
    gone KHook (KStage after_finish) (stage_events after_finish cz lz) reads_hooks Hksz.
    fold (hooks vs) (hooks td).
    by rewrite (hooks_of_hooks _ Hkv), (hooks_of_hooks _ Hkd), !app_nil_r.
  - unfold constructed.
    rewrite (reading_dispatch _ (KStage before) _ _ _ _ _ _ _ _ _ _ reads_constructed
               ltac:(discriminate) Hm Ha Hz).
    gone (KStage before) KHook vs reads_constructed Hkv.
    gone (KStage before) KHook td reads_constructed Hkd.
    gone (KStage before) KAction act reads_constructed Hka.
    gone (KStage before) (KStage after) (stage_events after ca la) reads_constructed Hksa.
    gone (KStage before) KSend (skel tf) reads_constructed Hkf.
    gone (KStage before) (KStage after_finish) (stage_events after_finish cz lz) reads_constructed Hksz.
    fold (constructed (before_events c mws)).
    by rewrite constructed_before_events, !app_nil_r.
  - unfold entered.
    rewrite (reading_dispatch _ (KStage before) _ _ _ _ _ _ _ _ _ _ (reads_entered before)
               ltac:(discriminate) Hm Ha Hz).
    gone (KStage before) KHook vs (reads_entered before) Hkv.
    gone (KStage before) KHook td (reads_entered before) Hkd.
    gone (KStage before) KAction act (reads_entered before) Hka.
    gone (KStage before) (KStage after) (stage_events after ca la) (reads_entered before) Hksa.
    gone (KStage before) KSend (skel tf) (reads_entered before) Hkf.
    gone (KStage before) (KStage after_finish) (stage_events after_finish cz lz) (reads_entered before) Hksz.
    fold (entered before (before_events c mws)).
    by rewrite entered_before_events, !app_nil_r.
  - unfold completed.
    rewrite (reading_dispatch _ (KStage before) _ _ _ _ _ _ _ _ _ _ (reads_completed before)
               ltac:(discriminate) Hm Ha Hz).
    gone (KStage before) KHook vs (reads_completed before) Hkv.
    gone (KStage before) KHook td (reads_completed before) Hkd.
    gone (KStage before) KAction act (reads_completed before) Hka.
    gone (KStage before) (KStage after) (stage_events after ca la) (reads_completed before) Hksa.
    gone (KStage before) KSend (skel tf) (reads_completed before) Hkf.
    gone (KStage before) (KStage after_finish) (stage_events after_finish cz lz) (reads_completed before) Hksz.
    fold (completed before (before_events c mws)).
    by rewrite completed_before_events, !app_nil_r.
  - unfold actions.
    rewrite (reading_dispatch _ KAction _ _ _ _ _ _ _ _ _ _ reads_actions
               ltac:(discriminate) Hm Ha Hz).
    gone KAction KHook vs reads_actions Hkv.
    gone KAction KHook td reads_actions Hkd.
    gone KAction (KStage before) (before_events c mws) reads_actions Hkb.
    gone KAction (KStage after) (stage_events after ca la) reads_actions Hksa.
    gone KAction KSend (skel tf) reads_actions Hkf.
    gone KAction (KStage after_finish) (stage_events after_finish cz lz) reads_actions Hksz.
    by rewrite !app_nil_r.
  - unfold entered.
    rewrite (reading_dispatch _ (KStage after) _ _ _ _ _ _ _ _ _ _ (reads_entered after)
               ltac:(discriminate) Hm Ha Hz).
    gone (KStage after) KHook vs (reads_entered after) Hkv.
    gone (KStage after) KHook td (reads_entered after) Hkd.
    gone (KStage after) (KStage before) (before_events c mws) (reads_entered after) Hkb.
    gone (KStage after) KAction act (reads_entered after) Hka.
    gone (KStage after) KSend (skel tf) (reads_entered after) Hkf.
    gone (KStage after) (KStage after_finish) (stage_events after_finish cz lz) (reads_entered after) Hksz.
    fold (entered after (stage_events after ca la)).
    by rewrite entered_stage_events, !app_nil_r.
  - unfold completed.
    rewrite (reading_dispatch _ (KStage after) _ _ _ _ _ _ _ _ _ _ (reads_completed after)
               ltac:(discriminate) Hm Ha Hz).
    gone (KStage after) KHook vs (reads_completed after) Hkv.
    gone (KStage after) KHook td (reads_completed after) Hkd.
    gone (KStage after) (KStage before) (before_events c mws) (reads_completed after) Hkb.
    gone (KStage after) KAction act (reads_completed after) Hka.
    gone (KStage after) KSend (skel tf) (reads_completed after) Hkf.
    gone (KStage after) (KStage after_finish) (stage_events after_finish cz lz) (reads_completed after) Hksz.
    fold (completed after (stage_events after ca la)).
    by rewrite completed_stage_events, !app_nil_r.
  - unfold entered.
    rewrite (reading_dispatch _ (KStage after_finish) _ _ _ _ _ _ _ _ _ _ (reads_entered after_finish)
               ltac:(discriminate) Hm Ha Hz).
    gone (KStage after_finish) KHook vs (reads_entered after_finish) Hkv.
    gone (KStage after_finish) KHook td (reads_entered after_finish) Hkd.
    gone (KStage after_finish) (KStage before) (before_events c mws) (reads_entered after_finish) Hkb.
    gone (KStage after_finish) KAction act (reads_entered after_finish) Hka.
    gone (KStage after_finish) (KStage after) (stage_events after ca la) (reads_entered after_finish) Hksa.
    gone (KStage after_finish) KSend (skel tf) (reads_entered after_finish) Hkf.
    fold (entered after_finish (stage_events after_finish cz lz)).
    by rewrite entered_stage_events.
  - unfold completed.
    rewrite (reading_dispatch _ (KStage after_finish) _ _ _ _ _ _ _ _ _ _ (reads_completed after_finish)
               ltac:(discriminate) Hm Ha Hz).
    gone (KStage after_finish) KHook vs (reads_completed after_finish) Hkv.
    gone (KStage after_finish) KHook td (reads_completed after_finish) Hkd.
    gone (KStage after_finish) (KStage before) (before_events c mws) (reads_completed after_finish) Hkb.
    gone (KStage after_finish) KAction act (reads_completed after_finish) Hka.
    gone (KStage after_finish) (KStage after) (stage_events after ca la) (reads_completed after_finish) Hksa.
    gone (KStage after_finish) KSend (skel tf) (reads_completed after_finish) Hkf.
    fold (completed after_finish (stage_events after_finish cz lz)).
    by rewrite completed_stage_events.
  - unfold sent.
    rewrite (reading_dispatch _ KSend _ _ _ _ _ _ _ _ _ _ reads_sent
               ltac:(discriminate) Hm Ha Hz).
    gone KSend KHook vs reads_sent Hkv.
    gone KSend KHook td reads_sent Hkd.
    gone KSend (KStage before) (before_events c mws) reads_sent Hkb.
    gone KSend KAction act reads_sent Hka.
    gone KSend (KStage after) (stage_events after ca la) reads_sent Hksa.
    gone KSend (KStage after_finish) (stage_events after_finish cz lz) reads_sent Hksz.
    by rewrite !app_nil_r.
Qed.

(** ** C7: an unsupported method *)

(** C7.  On a first call whose request method is not among the supported
    methods, the pipeline raises [HTTPError(405)] before anything else
    happens: no hook, no stage and no action runs; the generator hands the
    error to the exception handler of the request. *)
Theorem C7_unsupported_method_rejected cls req raw h :
  _called_once h = false ->
  method req ∉ SUPPORTED_METHODS cls ->
  (_execute_body cls req raw h).1 = Raised (HTTPError 405) /\
  news (_execute_body cls req raw) h = [] /\
  news (_execute_gen cls req raw) h = [EvHandleException (HTTPError 405)].
Proof.
  intros Hc Hm.
  assert (_execute_body cls req raw h
          = (Raised (HTTPError 405), entry_state h)) as Hb.
  { rewrite (_execute_body_first _ _ _ _ Hc).
    unfold try_block, prologue, validate_prepare.
    rewrite (bool_decide_eq_false_2 _ Hm). reflexivity. }
  split; [by rewrite Hb|]. split.
  - apply news_of. rewrite Hb. simpl. by rewrite app_nil_r.
  - apply news_of. unfold _execute_gen, ExceptionStackContext.
    by rewrite Hb.
Qed.

(** The theorem at the sample handler, for a [PATCH] request. *)
Lemma C7_unsupported_method_witness :
  (_execute_body sample_class patch_request sample_raw __init__).1
    = Raised (HTTPError 405) /\
  news (_execute_body sample_class patch_request sample_raw) __init__ = [] /\
  news (_execute_gen sample_class patch_request sample_raw) __init__
    = [EvHandleException (HTTPError 405)].
Proof.
  apply (C7_unsupported_method_rejected sample_class patch_request sample_raw
           __init__ eq_refl).
  apply (bool_decide_eq_false_1
           (method patch_request ∈ SUPPORTED_METHODS sample_class)).
  reflexivity.
Defined.

(** ** Re-entrant calls *)

(** Application code finalizes the response only through the [do_finish]
    calls written in it. *)
Lemma exec_cmd_finalized c h :
  finalized (log (exec_cmd c h).2)
  <= finalized (log h) + match c with CallDoFinish => 1 | _ => 0 end.
Proof.
  unfold finalized. destruct c; simpl; unfold_M; simpl; try lia.
  - unfold redirect. unfold_M. simpl. rewrite count_ev_snoc. simpl. lia.
  - unfold do_finish, RequestHandler_finish. unfold_M. simpl.
    destruct (_finished h); simpl; [lia|]. rewrite count_ev_snoc. simpl. lia.
  - rewrite count_ev_snoc. simpl. lia.
Qed.

Lemma do_finish_calls_cons c body :
  do_finish_calls (c :: body)
  = match c with CallDoFinish => 1 | _ => 0 end + do_finish_calls body.
Proof. unfold do_finish_calls. by destruct c. Qed.

Lemma do_finish_calls_app b1 b2 :
  do_finish_calls (b1 ++ b2) = do_finish_calls b1 + do_finish_calls b2.
Proof. unfold do_finish_calls. by rewrite List.filter_app, length_app. Qed.

Lemma exec_finalized body h :
  finalized (log (exec body h).2) <= finalized (log h) + do_finish_calls body.
Proof.
  revert h. induction body as [|c body IH]; intros h; [simpl; lia|].
  rewrite do_finish_calls_cons.
  change (exec (c :: body)) with (exec_cmd c ;; exec body).
  pose proof (exec_cmd_finalized c h) as Hc. unfold_M.
  destruct (exec_cmd c h) as [[[]|e|e|] h1]; simpl in *; try lia.
  specialize (IH h1). lia.
Qed.

Lemma finalized_snoc l e :
  finalized (l ++ [e])
  = finalized l + match e with EvSuperFinish => 1 | _ => 0 end.
Proof. unfold finalized. rewrite count_ev_snoc. by destruct e. Qed.

Lemma finalized_add_log e h :
  finalized (log (add_log e h))
  = finalized (log h) + match e with EvSuperFinish => 1 | _ => 0 end.
Proof. apply finalized_snoc. Qed.

Lemma function_callable_body cls name :
  match getattr_method cls name with Engine f | Bare f => c_body f end
  = c_body (methods cls name).
Proof.
  unfold getattr_method, metaclass_wrap.
  destruct (in_dct cls name); [|done]. by destruct (bool_decide _).
Qed.

(** A task finalizes the response only through the [do_finish] calls of
    the function it runs. *)
Lemma Task_finalized t entry f h :
  match entry with EvSuperFinish => False | _ => True end ->
  finalized (log (Task t entry f h).2)
  <= finalized (log h)
     + do_finish_calls (match f with Engine f | Bare f => c_body f end).
Proof.
  intros Hentry.
  assert (finalized (log (add_log entry h)) = finalized (log h)) as He.
  { rewrite finalized_add_log. by destruct entry; try lia. }
  destruct f as [f|f].
  - destruct (c_style f) eqn:Hs.
    + rewrite (Task_plain _ _ _ _ Hs). unfold_M. simpl.
      pose proof (exec_finalized (c_body f) (add_log entry h)) as Hx.
      destruct (exec (c_body f) (add_log entry h)) as [[[]|e|e|] h1];
        simpl in *; try lia.
      destruct (c_returns_value f); simpl; [lia|].
      unfold _done. unfold_M. simpl. rewrite !finalized_snoc. lia.
    + rewrite (Task_generator _ _ _ _ Hs).
      destruct (c_suspends_after f) as [n|].
      * assert (do_finish_calls (c_body f)
                = do_finish_calls (take n (c_body f))
                  + do_finish_calls (drop n (c_body f))) as ->
          by (by rewrite <- do_finish_calls_app, take_drop).
        unfold_M. simpl.
        pose proof (exec_finalized (take n (c_body f)) (add_log entry h)) as H1.
        destruct (exec (take n (c_body f)) (add_log entry h))
          as [[[]|e|e|] h1]; simpl in *; try lia.
        pose proof (exec_finalized (drop n (c_body f)) h1) as H2.
        destruct (exec (drop n (c_body f)) h1) as [[[]|e|e|] h2];
          simpl in *; try lia.
        unfold _done. unfold_M. simpl. rewrite !finalized_snoc. lia.
      * unfold_M. simpl.
        pose proof (exec_finalized (c_body f) (add_log entry h)) as Hx.
        destruct (exec (c_body f) (add_log entry h)) as [[[]|e|e|] h1];
          simpl in *; try lia.
        unfold _done. unfold_M. simpl. rewrite !finalized_snoc. lia.
  - unfold Task, call_bare. unfold_M. simpl.
    pose proof (exec_finalized (c_body f) (add_log entry h)) as Hx.
    destruct (c_callback f), (c_style f); simpl; try lia;
      destruct (exec (c_body f) (add_log entry h)) as [[[]|e|e|] h1];
      simpl in *; try lia.
    rewrite finalized_snoc. lia.
Qed.

(** A call made with the flag set: decoding (when nothing is cached) and
    the action inside the [try] statement. *)
Lemma reentrant_spec cls req raw h :
  _called_once h = true ->
  let args := call_arguments cls raw (_cached_args h) in
  let td := match _cached_args h with
            | Some _ => []
            | None => decode_events raw
            end in
  exists tg act,
    news (_execute_body cls req raw) h = td ++ tg /\
    skel tg = act /\ all_of_kind KAction act /\
    actions act = [(lower (method req), args)] /\
    finalized tg
      <= do_finish_calls (c_body (methods cls (lower (method req)))) /\
    _called_once (_execute_body cls req raw h).2 = true /\
    _cached_args (_execute_body cls req raw h).2 = Some args.
Proof.
  intros Hc args td.
  rewrite (_execute_body_reentrant _ _ _ _ Hc).
  destruct (decoded_args_spec cls raw (entry_state h))
    as (hd & Hd & [Hld _] & Hsd & D1 & D2 & D3 & D4).
  change (_cached_args (entry_state h)) with (_cached_args h) in *.
  fold args td in Hd, Hld, Hsd, D2.
  assert ((decoded_args cls raw (entry_state h)).1 = Returned args) as Hd1
    by (by rewrite Hd).
  assert ((decoded_args cls raw (entry_state h)).2 = hd) as Hd2
    by (by rewrite Hd).
  rewrite Hd2 in Hld.
  rewrite (bind_returned _ _ _ _ Hd1), Hd2.
  destruct (guarded_spec cls req false args hd)
    as (tg & act & ([Hlg _] & Hsg & G1 & G2 & _ & _) & Hka & Haa).
  simpl in Hsg, Haa.
  exists tg, act.
  split.
  { unfold news. rewrite (_execute_body_reentrant _ _ _ _ Hc).
    rewrite (bind_returned _ _ _ _ Hd1), Hd2, Hlg, Hld, <- app_assoc.
    apply drop_app_length. }
  split; [done|]. split; [done|]. split; [done|].
  rewrite G1, G2, D1, D2. split; [|done].
  (* the finalizations are those of the action *)
  assert (finalized (log (guarded cls req false args hd).2)
          <= finalized (log hd)
             + do_finish_calls (c_body (methods cls (lower (method req)))))
    as Hf.
  { rewrite guarded_state. rewrite <- function_callable_body.
    apply (Task_finalized (ActionOf (lower (method req)))
             (EvAction (lower (method req)) args)
             (getattr_method cls (lower (method req))) hd I). }
  rewrite Hlg in Hf. rewrite finalized_app in Hf. lia.
Qed.

Lemma finalized_quiet l :
  Forall (fun e => is_noise e = false) l -> finalized l = 0.
Proof.
  induction 1 as [|e l He _ IH]; [done|].
  change (e :: l) with ([e] ++ l). rewrite finalized_app, IH.
  unfold finalized, count_ev. by destruct e.
Qed.

Lemma cached_or_decoded_quiet (cached : option call_args) raw :
  Forall (fun e => is_noise e = false)
    (match cached with Some _ => [] | None => decode_events raw end).
Proof. destruct cached; [constructor | apply decode_events_quiet]. Qed.

Lemma cached_or_decoded_kind (cached : option call_args) raw :
  all_of_kind KHook
    (match cached with Some _ => [] | None => decode_events raw end).
Proof. destruct cached; [constructor | apply decode_events_kind]. Qed.

(** C9.  A call of [_execute] on a handler whose [_called_once] flag is
    set takes the arguments (cached, or decoded when none are cached) and
    runs the action inside the [try] statement, and nothing else: no stage
    of any middleware is entered, no middleware is constructed, no
    redirect is sent, and the only finalizations are those the action
    method itself asks for with [do_finish]. *)
Theorem C9_reentrant_call_runs_the_action_only cls req raw h :
  _called_once h = true ->
  let evs := news (_execute_body cls req raw) h in
  let args := call_arguments cls raw (_cached_args h) in
  _execute_body cls req raw h
    = (a ← decoded_args cls raw; guarded cls req false a) (entry_state h) /\
  (forall s, entered s evs = [] /\ completed s evs = []) /\
  constructed evs = [] /\ sent evs = [] /\
  actions evs = [(lower (method req), args)] /\
  finalized evs <= do_finish_calls (c_body (methods cls (lower (method req)))).
Proof.
  intros Hc evs args. split; [by apply _execute_body_reentrant|].
  destruct (reentrant_spec cls req raw h Hc)
    as (tg & act & Hev & Hsg & Hka & Haa & Hfin & _).
  fold evs args in Hev, Haa. rewrite <- Hsg in Hka.
  pose proof (cached_or_decoded_kind (_cached_args h) raw) as Hkd.
  pose proof (cached_or_decoded_quiet (_cached_args h) raw) as Hqd.
  rewrite Hev. split; [|split; [|split; [|split]]].
  - intros s. unfold entered, completed. rewrite !omap_app. split.
    + rewrite (omap_other _ (KStage s) KHook _ (reads_entered s));
        [|discriminate|exact Hkd].
      by rewrite (omap_foreign _ (KStage s) KAction _ (reads_entered s)).
    + rewrite (omap_other _ (KStage s) KHook _ (reads_completed s));
        [|discriminate|exact Hkd].
      by rewrite (omap_foreign _ (KStage s) KAction _ (reads_completed s)).
  - unfold constructed. rewrite !omap_app.
    rewrite (omap_other _ (KStage before) KHook _ reads_constructed);
      [|discriminate|exact Hkd].
    by rewrite (omap_foreign _ (KStage before) KAction _ reads_constructed).
  - unfold sent. rewrite !omap_app.
    rewrite (omap_other _ KSend KHook _ reads_sent); [|discriminate|exact Hkd].
    by rewrite (omap_foreign _ KSend KAction _ reads_sent).
  - rewrite actions_app. unfold actions at 1.
    rewrite (omap_other _ KAction KHook _ reads_actions);
      [|discriminate|exact Hkd].
    unfold actions in *.
    by rewrite <- (omap_skel _ KAction tg reads_actions), Hsg.
  - rewrite finalized_app, (finalized_quiet _ Hqd). lia.
Qed.

(** The theorem at the sample handler, on a handler object that has run
    before. *)
Lemma C9_reentrant_call_witness :
  let h := reentered (["42"], [("page", "7")]) in
  let evs := news (_execute_body sample_class sample_request sample_raw) h in
  _execute_body sample_class sample_request sample_raw h
    = (a ← decoded_args sample_class sample_raw;
       guarded sample_class sample_request false a) (entry_state h) /\
  (forall s, entered s evs = [] /\ completed s evs = []) /\
  constructed evs = [] /\ sent evs = [] /\
  actions evs = [("get", (["42"], [("page", "7")]))] /\
  finalized evs <= 0.
Proof.
  exact (C9_reentrant_call_runs_the_action_only sample_class sample_request
           sample_raw (reentered (["42"], [("page", "7")])) eq_refl).
Defined.

(** ** C6: the cached arguments *)

(** C6.  After a first call that passed validation and preparation, the
    handler keeps the arguments decoded by that call; the hooks called by
    the first call are the XSRF check (when configured), [prepare], once,
    and the decoding of each raw argument, and its action receives the
    decoded arguments.  A later call on the handler, whatever raw
    arguments it is given, calls no hook at all (no validation, no
    [prepare], no decoding), enters no [before] stage, and passes the very
    same decoded arguments to the action. *)
Theorem C6_reentrant_call_reuses_cached_arguments cls req raw1 h :
  _called_once h = false -> _cached_args h = None ->
  validate_result cls req h = None ->
  let h1 := (_execute_body cls req raw1 h).2 in
  let evs1 := news (_execute_body cls req raw1) h in
  let d := decoded cls raw1 in
  _called_once h1 = true /\ _cached_args h1 = Some d /\
  hooks evs1 = (if xsrf_checked cls req then [EvCheckXsrf] else [])
               ++ [EvPrepare] ++ decode_events raw1 /\
  (forall m a, (m, a) ∈ actions evs1 -> a = d) /\
  (forall raw2 h',
     _called_once h' = true -> _cached_args h' = Some d ->
     let evs2 := news (_execute_body cls req raw2) h' in
     hooks evs2 = [] /\ entered before evs2 = [] /\ constructed evs2 = [] /\
     actions evs2 = [(lower (method req), d)] /\
     _called_once (_execute_body cls req raw2 h').2 = true /\
     _cached_args (_execute_body cls req raw2 h').2 = Some d).
Proof.
  intros Hc Hca Hv h1 evs1 d.
  apply validate_result_None in Hv.
  assert (returned (validate_prepare cls req (entry_state h)).1 = true) as Hp
    by (by rewrite Hv).
  pose proof (first_call_shape cls req raw1 h Hc) as Hshape.
  cbn zeta in Hshape. rewrite Hp, Hca in Hshape.
  destruct Hshape
    as (tm & act & ta & tf & tz & la & ca & lz & cz & Hev & _ & _ & Hsm & Hka
        & Haa & Hsa & Hkf & Hsz & _ & _ & _ & _ & _ & _ & Hco & Hcached).
  destruct (shape_readings _ _ _ _ _ _ _ _ _ _ _ _ _ _ Hev Hsm
              (validate_skel_kind cls req) (decode_events_kind raw1) Hka Hsa
              Hkf Hsz)
    as (Hhooks & _ & _ & _ & Hact & _).
  fold evs1 in Hhooks, Hact. fold h1 in Hco, Hcached.
  split; [done|]. split; [by apply Hcached|]. split.
  { rewrite Hhooks, (validate_prepare_returned _ _ _ Hv).
    by rewrite <- app_assoc. }
  split.
  { intros m a. rewrite Hact, Haa.
    destruct (true && _); [|by intros ?%elem_of_nil].
    by intros [= _ ->]%list_elem_of_singleton. }
  intros raw2 h' Hc' Hca' evs2.
  destruct (reentrant_spec cls req raw2 h' Hc')
    as (tg & act' & Hev' & Hsg & Hka' & Haa' & _ & Hco' & Hcached').
  rewrite Hca' in Hev', Haa', Hcached'. simpl in Hev', Haa', Hcached'.
  fold evs2 in Hev'. rewrite Hev'. rewrite <- Hsg in Hka'.
  split; [|split; [|split; [|split]]]; try done.
  - unfold hooks. by rewrite (omap_foreign _ KHook KAction _ reads_hooks).
  - unfold entered.
    by rewrite (omap_foreign _ (KStage before) KAction _ (reads_entered before)).
  - unfold constructed.
    by rewrite (omap_foreign _ (KStage before) KAction _ reads_constructed).
  - unfold actions in *.
    by rewrite <- (omap_skel _ KAction tg reads_actions), Hsg.
Qed.

(** The theorem at the sample handler, on a fresh handler object. *)
Lemma C6_cached_arguments_witness :
  let h1 := (_execute_body sample_class sample_request sample_raw __init__).2 in
  let evs1 := news (_execute_body sample_class sample_request sample_raw)
                   __init__ in
  let d := decoded sample_class sample_raw in
  _called_once h1 = true /\ _cached_args h1 = Some d /\
  hooks evs1 = [] ++ [EvPrepare] ++ decode_events sample_raw /\
  (forall m a, (m, a) ∈ actions evs1 -> a = d) /\
  (forall raw2 h',
     _called_once h' = true -> _cached_args h' = Some d ->
     let evs2 := news (_execute_body sample_class sample_request raw2) h' in
     hooks evs2 = [] /\ entered before evs2 = [] /\ constructed evs2 = [] /\
     actions evs2 = [("get", d)] /\
     _called_once (_execute_body sample_class sample_request raw2 h').2 = true /\
     _cached_args (_execute_body sample_class sample_request raw2 h').2
       = Some d).
Proof.
  exact (C6_reentrant_call_reuses_cached_arguments sample_class sample_request
           sample_raw __init__ eq_refl eq_refl eq_refl).
Defined.

(** ** C2: cleanup runs for the entered middleware, in reverse order *)





(** ** The deferred redirect and the finish step *)

Lemma sent_cons_nil e l : sent (e :: l) = [] -> sent l = [].
Proof. unfold sent. simpl. by destruct e. Qed.

Lemma sent_has_send l1 a l2 : sent (l1 ++ EvSuperRedirect a :: l2) <> [].
Proof.
  rewrite sent_app.
  change (sent (EvSuperRedirect a :: l2)) with (a :: sent l2).
  by destruct (sent l1).
Qed.

(** A log with one transport redirect splits around it in one way. *)
Lemma split_at_send X a' Y l1 a l2 :
  sent X = [] -> sent Y = [] ->
  X ++ EvSuperRedirect a' :: Y = l1 ++ EvSuperRedirect a :: l2 ->
  l1 = X /\ a = a' /\ l2 = Y.
Proof.
  revert l1. induction X as [|x X IH]; intros l1 HX HY Heq.
  - destruct l1 as [|e l1]; simplify_eq/=; [done|].
    by destruct (sent_has_send l1 a l2).
  - destruct l1 as [|e l1]; simpl in Heq; injection Heq as He Ht.
    + subst x. by destruct (sent_has_send [] a X).
    + subst e.
      by destruct (IH l1 (sent_cons_nil _ _ HX) HY Ht) as (-> & -> & ->).
Qed.

(** The directive that the [redirect] calls of a log leave pending is that
    of the last call. *)
Lemma pending_last init l :
  pending init l = from_option Some init (last (calls l)).
Proof.
  revert init. induction l as [|e l IH]; intros init; [done|].
  change (pending init (e :: l))
    with (pending (match e with EvRedirectCall a => Some a | _ => init end) l).
  rewrite IH. destruct e; try done.
  change (calls (EvRedirectCall args :: l)) with (args :: calls l).
  rewrite last_cons. by destruct (last (calls l)).
Qed.

Lemma finish_sends_readings pend fin s :
  entered s (finish_sends pend fin) = [] /\
  completed s (finish_sends pend fin) = [] /\
  calls (finish_sends pend fin) = [] /\
  sent (finish_sends pend fin) = from_option (fun a => [a]) [] pend /\
  finalized (finish_sends pend fin) = (if fin then 0 else 1).
Proof. unfold finish_sends. by destruct pend, fin. Qed.

(** The log of a first call in three parts: what is logged up to the end
    of the [after] loop, what the finish step sends, and the
    [after_finish] loop. *)
Lemma dispatch_parts cls req raw h :
  _called_once h = false ->
  let hb := entry_state h in
  let ha := finish_state cls req raw h in
  let evs := news (_execute_body cls req raw) h in
  let pre := news (before_finish cls req raw) hb in
  let E := reverse (entered before evs) in
  exists tf tz cz,
    evs = pre ++ tf ++ tz /\
    _redirection ha = pending (_redirection h) pre /\
    sent pre = [] /\
    entered after pre = entered after evs /\
    completed after pre = completed after evs /\
    entered after_finish pre = [] /\
    sent tz = [] /\ entered after tz = [] /\ completed after tz = [] /\
    entered after_finish evs `prefix_of` E /\
    ((before_finish cls req raw hb).1 <> Returned tt ->
     tf = [] /\ entered after_finish evs = []) /\
    ((before_finish cls req raw hb).1 = Returned tt ->
     entered after evs = E /\ completed after evs = E /\
     map mw_name (executed_middleware ha) = E /\
     match finish_error ha with
     | Some e => tf = [] /\ entered after_finish evs = [] /\
                 _execute_body cls req raw h = (Raised e, ha)
     | None =>
         tf = finish_sends (_redirection ha) (_finished ha) /\
         _execute_body cls req raw h
         = stage_loop after_finish (finish_step ha).2 /\
         cz = done_count (executed_middleware ha) (stage_step after_finish)
                         (finish_step ha).2 /\
         entered after_finish evs = take (S cz) E /\
         completed after_finish evs = take cz E
     end) /\
    ((_execute_body cls req raw h).1 = Returned tt ->
     entered after_finish evs = E /\ completed after_finish evs = E).
Proof.
  intros Hc hb ha evs pre E.
  pose proof (first_call_shape cls req raw h Hc) as Hshape.
  cbn zeta in Hshape.
  set (passes := returned (validate_prepare cls req (entry_state h)).1) in *.
  set (mws := if passes then middleware cls else []) in *.
  set (c := done_count mws before_step (before_state cls req raw h)) in *.
  set (E' := reverse (take (S c) mws)) in *.
  destruct Hshape
    as (tm & act & ta & tf & tz & la & ca & lz & cz & Hev & _ & Htb & Hsm & Hka
        & Haa & Hsa & Hkf & Hsz & Hla & Hlz & Htry & Hfin & Hnr & Hret & _).
  fold hb in Htb, Hfin, Hnr. fold ha in Hfin. fold evs in Hev.
  assert (pre = tm ++ ta) as Hpre by (by apply traces_news).
  destruct (shape_readings _ _ _ _ _ _ _ _ _ _ _ _ _ _ Hev Hsm
              (validate_skel_kind cls req) (td_kind passes (_cached_args h) raw)
              Hka Hsa Hkf Hsz)
    as (_ & _ & Hent & _ & _ & Hea & Hca & Hez & Hcz & Hse).
  destruct (shape_readings (tm ++ ta ++ [] ++ []) tm ta [] [] _ _ c mws act
              la ca [] 0 eq_refl Hsm
              (validate_skel_kind cls req) (td_kind passes (_cached_args h) raw)
              Hka Hsa (all_of_kind_nil _) eq_refl)
    as (_ & _ & _ & _ & _ & Hea' & Hca' & Hez' & _ & Hse').
  rewrite !app_nil_r, <- Hpre in Hea', Hca', Hez', Hse'.
  assert (E = map mw_name E') as HE.
  { subst E E'. by rewrite Hent, map_reverse. }
  pose proof (stage_events_kind after_finish cz lz) as Hkz.
  rewrite <- Hsz in Hkz.
  exists tf, tz, cz.
  split; [by rewrite Hpre, <- app_assoc|].
  split; [destruct Htb as [_ Hp]; by rewrite Hpre|].
  split; [exact Hse'|].
  split; [by rewrite Hea', Hea|].
  split; [by rewrite Hca', Hca|].
  split; [exact Hez'|].
  split; [exact (omap_foreign _ KSend (KStage after_finish) tz reads_sent
                   ltac:(discriminate) ltac:(discriminate) Hkz)|].
  split; [exact (omap_foreign _ (KStage after) (KStage after_finish) tz
                   (reads_entered after)
                   ltac:(discriminate) ltac:(discriminate) Hkz)|].
  split; [exact (omap_foreign _ (KStage after) (KStage after_finish) tz
                   (reads_completed after)
                   ltac:(discriminate) ltac:(discriminate) Hkz)|].
  split; [rewrite Hez, HE; by apply take_names_prefix|].
  split.
  { intros Hn. destruct (Hnr Hn) as (-> & -> & _). split; [done|].
    by rewrite Hez, take_nil. }
  split; cycle 1.
  { intros Hx. destruct (Hret Hx) as (Hbf & Hfe & ->).
    destruct (Hfin Hbf) as (_ & _ & _ & Hm). fold ha in Hfe.
    rewrite Hfe in Hm. destruct Hm as (_ & -> & _).
    by rewrite Hez, Hcz, HE, take_succ_length, firstn_all. }
  intros Hr. destruct (Hfin Hr) as (-> & -> & Hex & Hm).
  split; [by rewrite Hea, HE, take_succ_length|].
  split; [by rewrite Hca, HE, firstn_all|].
  split; [by rewrite Hex, HE|].
  destruct (finish_error ha) as [e|].
  - destruct Hm as (-> & -> & Hb). split; [done|]. split; [|done].
    by rewrite Hez, take_nil.
  - destruct Hm as (-> & -> & -> & Hb). rewrite Hex.
    split; [done|]. split; [done|]. split; [done|].
    split; [by rewrite Hez, HE, (fmap_take mw_name)|].
    by rewrite Hcz, HE, (fmap_take mw_name).
Qed.

(** When the [after] loop has ended and tornado accepts the pending
    directive, the redirect is sent right there, once. *)
Lemma redirect_sent cls req raw h a :
  _called_once h = false ->
  let hb := entry_state h in
  let ha := finish_state cls req raw h in
  let evs := news (_execute_body cls req raw) h in
  let pre := news (before_finish cls req raw) hb in
  (before_finish cls req raw hb).1 = Returned tt ->
  _redirection ha = Some a ->
  redirect_error a (_headers_written ha) = None ->
  exists l2, evs = pre ++ EvSuperRedirect a :: l2 /\
    sent l2 = [] /\ entered after l2 = [] /\ completed after l2 = [] /\
    sent evs = [a].
Proof.
  intros Hc hb ha evs pre Hr Hp He.
  destruct (dispatch_parts cls req raw h Hc)
    as (tf & tz & cz & Hev & _ & Hsp & _ & _ & _ & Hsz & Hez & Hcz & _ & _
        & Hfin & _).
  fold hb ha evs pre in Hev, Hsp, Hfin.
  destruct (Hfin Hr) as (_ & _ & _ & Hm).
  assert (finish_error ha = None) as Hfe.
  { unfold finish_error. by rewrite Hp. }
  rewrite Hfe in Hm. destruct Hm as (-> & _). rewrite Hp in Hev.
  change (finish_sends (Some a) (_finished ha) ++ tz)
    with (EvSuperRedirect a :: finish_sends None (_finished ha) ++ tz) in Hev.
  destruct (finish_sends_readings None (_finished ha) after)
    as (Ha0 & Hc0 & _ & Hs0 & _).
  exists (finish_sends None (_finished ha) ++ tz).
  assert (sent (finish_sends None (_finished ha) ++ tz) = []) as Hs2.
  { by rewrite sent_app, Hs0, Hsz. }
  split; [exact Hev|]. split; [exact Hs2|].
  split; [by rewrite entered_app, Ha0, Hez|].
  split; [by rewrite completed_app, Hc0, Hcz|].
  rewrite Hev, sent_app, Hsp.
  change (sent (EvSuperRedirect a :: ?l)) with (a :: sent l).
  by rewrite Hs2.
Qed.

(** A redirect is sent only then. *)
Lemma sent_only_at_finish cls req raw h :
  _called_once h = false ->
  let hb := entry_state h in
  let ha := finish_state cls req raw h in
  sent (news (_execute_body cls req raw) h) <> [] ->
  exists a, (before_finish cls req raw hb).1 = Returned tt /\
    _redirection ha = Some a /\
    redirect_error a (_headers_written ha) = None.
Proof.
  intros Hc hb ha Hs.
  destruct (dispatch_parts cls req raw h Hc)
    as (tf & tz & cz & Hev & _ & Hsp & _ & _ & _ & Hsz & _ & _ & _ & Hnr
        & Hfin & _).
  fold hb ha in Hev, Hsp, Hnr, Hfin.
  assert (sent tf <> []) as Htf.
  { intros Htf. apply Hs. by rewrite Hev, !sent_app, Hsp, Htf, Hsz. }
  destruct ((before_finish cls req raw hb).1) as [[]|e|e|] eqn:Hr;
    try (by destruct Hnr as [-> _]).
  destruct (Hfin eq_refl) as (_ & _ & _ & Hm).
  unfold finish_error in Hm.
  destruct (_redirection ha) as [a|] eqn:Hp.
  - exists a. split; [done|]. split; [done|].
    destruct (redirect_error a (_headers_written ha)); [|done].
    by destruct Hm as [-> _].
  - destruct Hm as [-> _].
    by destruct (finish_sends_readings None (_finished ha) after)
      as (_ & _ & _ & Hs0 & _).
Qed.

Lemma Task_sends_nothing t entry f h :
  kind entry <> KSend -> is_noise entry = false ->
  sent (news (Task t entry f) h) = [].
Proof.
  intros Hk Hn. destruct (Task_spec t entry f h Hn) as (tr & Ht & Hs & _).
  rewrite (traces_news _ _ _ Ht).
  unfold sent. rewrite <- (omap_skel _ KSend tr reads_sent ltac:(discriminate)).
  rewrite Hs. simpl. destruct entry; try done; by destruct (returned _).
Qed.

(** ** C5: the redirect is deferred *)

(** C5.  A call of [redirect] returns at once and only records the
    directive: it logs the call and nothing is sent; no [before], [after]
    or [after_finish] stage and no action sends a redirect to the
    transport, and nothing is sent up to the end of the [after] loop.
    Wherever a transport redirect occurs in the log of a dispatch, all
    that precedes it is the run up to the end of the [after] loop, which
    has ended normally: the [after] stage of every entered middleware was
    entered and completed before it, and no [after] stage and no other
    redirect follows it.  And the redirect is performed: when the [after]
    loop has ended with a directive pending that tornado accepts, the
    transport redirect with that directive is the next event of the
    log. *)
Theorem C5_redirect_sent_after_the_after_stages cls req raw h :
  _called_once h = false ->
  let hb := entry_state h in
  let ha := finish_state cls req raw h in
  let evs := news (_execute_body cls req raw) h in
  let pre := news (before_finish cls req raw) hb in
  (forall a h',
     (redirect a h').1 = Returned tt /\
     news (redirect a) h' = [EvRedirectCall a] /\
     _redirection (redirect a h').2 = Some a) /\
  (forall s m h', sent (news (stage_step s m) h') = []) /\
  (forall args h', sent (news (action_task cls req args) h') = []) /\
  sent pre = [] /\
  (forall l1 a l2,
     evs = l1 ++ EvSuperRedirect a :: l2 ->
     l1 = pre /\ (before_finish cls req raw hb).1 = Returned tt /\
     _redirection ha = Some a /\
     entered after l1 = reverse (entered before evs) /\
     completed after l1 = reverse (entered before evs) /\
     entered after l2 = [] /\ sent l2 = []) /\
  (forall a,
     (before_finish cls req raw hb).1 = Returned tt ->
     _redirection ha = Some a ->
     redirect_error a (_headers_written ha) = None ->
     exists l2, evs = pre ++ EvSuperRedirect a :: l2 /\ sent evs = [a]).
Proof.
  intros Hc hb ha evs pre.
  destruct (dispatch_parts cls req raw h Hc)
    as (tf & tz & cz & Hev & _ & Hsp & Hea & Hca & _ & _ & _ & _ & _ & _
        & Hfin & _).
  fold hb ha evs pre in Hev, Hsp, Hea, Hca, Hfin.
  split.
  { intros a h'. split; [done|]. split; [|done].
    apply news_of. unfold redirect. unfold_M. by simpl. }
  split; [intros s m h'; by apply Task_sends_nothing|].
  split; [intros args h'; by apply Task_sends_nothing|].
  split; [exact Hsp|]. split.
  - intros l1 a l2 Hsplit.
    assert (sent evs <> []) as Hne by (rewrite Hsplit; apply sent_has_send).
    destruct (sent_only_at_finish cls req raw h Hc Hne) as (a' & Hr & Hp & He).
    destruct (redirect_sent cls req raw h a' Hc Hr Hp He)
      as (l2' & Hev' & Hs2 & He2 & _ & _).
    fold evs pre in Hev'. rewrite Hev' in Hsplit.
    destruct (split_at_send _ _ _ _ _ _ Hsp Hs2 Hsplit) as (-> & -> & ->).
    destruct (Hfin Hr) as (HE1 & HE2 & _).
    split; [done|]. split; [exact Hr|]. split; [exact Hp|].
    split; [by rewrite Hea|]. split; [by rewrite Hca|]. by split.
  - intros a Hr Hp He.
    destruct (redirect_sent cls req raw h a Hc Hr Hp He)
      as (l2 & Hev' & _ & _ & _ & Hs).
    by exists l2.
Qed.

(** The theorem at a handler whose stages all complete and whose last
    [after] stage leaves a redirect with a status pending. *)
Lemma C5_redirect_deferred_witness :
  let evs := news (_execute_body redirecting_class sample_request sample_raw)
                  __init__ in
  let pre := news (before_finish redirecting_class sample_request sample_raw)
                  (entry_state __init__) in
  let a := (["/c"], [("status", "303")]) in
  sent evs = [a] /\
  exists l2, evs = pre ++ EvSuperRedirect a :: l2 /\
    entered after pre = ["m2"; "m1"] /\ completed after pre = ["m2"; "m1"] /\
    entered after l2 = [] /\ sent l2 = [].
Proof.
  destruct (C5_redirect_sent_after_the_after_stages redirecting_class
              sample_request sample_raw __init__ eq_refl)
    as (_ & _ & _ & _ & Hpos & Hdo).
  destruct (Hdo (["/c"], [("status", "303")]) eq_refl eq_refl eq_refl)
    as (l2 & Hev & Hs).
  destruct (Hpos _ _ _ Hev) as (_ & _ & _ & Hea & Hca & He2 & Hs2).
  split; [exact Hs|]. exists l2.
  split; [exact Hev|]. split; [exact Hea|]. split; [exact Hca|].
  split; [exact He2 | exact Hs2].
Defined.

(** ** C10: the last redirect call wins *)

(** C10.  A call of [redirect] replaces whatever directive was pending by
    its own.  At the deferred redirect step of a dispatch the pending
    directive is that of the last [redirect] call made up to the end of
    the [after] loop (or the one the handler had at the start when there
    was no call); a redirect that is sent to the transport is the only one
    of the dispatch and carries that directive, so the targets of earlier
    calls are never sent; and when the [after] loop has ended and tornado
    accepts the directive of the last call, it is sent. *)
Theorem C10_last_redirect_call_is_sent cls req raw h :
  _called_once h = false ->
  let hb := entry_state h in
  let ha := finish_state cls req raw h in
  let evs := news (_execute_body cls req raw) h in
  let pre := news (before_finish cls req raw) hb in
  (forall a b h', _redirection (redirect b (redirect a h').2).2 = Some b) /\
  _redirection ha = from_option Some (_redirection h) (last (calls pre)) /\
  (forall a, a ∈ sent evs ->
     sent evs = [a] /\
     from_option Some (_redirection h) (last (calls pre)) = Some a) /\
  (forall a,
     (before_finish cls req raw hb).1 = Returned tt ->
     last (calls pre) = Some a ->
     redirect_error a (_headers_written ha) = None ->
     sent evs = [a]).
Proof.
  intros Hc hb ha evs pre.
  destruct (dispatch_parts cls req raw h Hc)
    as (tf & tz & cz & _ & Hpend & _).
  fold hb ha evs pre in Hpend. rewrite pending_last in Hpend.
  split; [done|]. split; [exact Hpend|]. split.
  - intros a Hin.
    assert (sent evs <> []) as Hne by (intros E; rewrite E in Hin; inversion Hin).
    destruct (sent_only_at_finish cls req raw h Hc Hne) as (a' & Hr & Hp & He).
    destruct (redirect_sent cls req raw h a' Hc Hr Hp He)
      as (_ & _ & _ & _ & _ & Hs).
    fold evs in Hs. rewrite Hs in Hin. apply list_elem_of_singleton in Hin.
    subst a'. split; [exact Hs|]. fold ha in Hp. by rewrite <- Hpend.
  - intros a Hr Hl He.
    assert (_redirection ha = Some a) as Hp by (by rewrite Hpend, Hl).
    by destruct (redirect_sent cls req raw h a Hc Hr Hp He)
      as (_ & _ & _ & _ & _ & Hs).
Qed.

(** The theorem at a handler whose action asks for two redirects and whose
    last [after] stage asks for a third one. *)
Lemma C10_last_redirect_witness :
  let evs := news (_execute_body redirecting_class sample_request sample_raw)
                  __init__ in
  let pre := news (before_finish redirecting_class sample_request sample_raw)
                  (entry_state __init__) in
  calls pre = [(["/a"], []); (["/b"], []); (["/c"], [("status", "303")])] /\
  actions evs = [("get", (["42"], [("page", "7")]))] /\
  sent evs = [(["/c"], [("status", "303")])] /\
  last (calls pre) = Some (["/c"], [("status", "303")]).
Proof.
  destruct (C10_last_redirect_call_is_sent redirecting_class sample_request
              sample_raw __init__ eq_refl) as (_ & _ & Honly & Hdo).
  pose proof (Hdo (["/c"], [("status", "303")]) eq_refl eq_refl eq_refl)
    as Hs.
  split; [reflexivity|]. split; [reflexivity|]. split; [exact Hs|].
  refine (proj2 (Honly (["/c"], [("status", "303")]) _)).
  rewrite Hs. apply list_elem_of_singleton. reflexivity.
Defined.

(** ** C8: a response that is already finalized *)

(** C8 as the specification words it fails when a redirect is pending: the
    action finalizes the response and then asks for a redirect, both
    [after] stages complete, and the deferred redirect, attempted before
    the flag is looked at, is refused by tornado because the headers are
    written; the exception leaves the pipeline and no [after_finish] stage
    runs. *)
Lemma C8_pending_redirect_skips_after_finish :
  let hb := entry_state __init__ in
  let ha := finish_state late_redirect_class sample_request sample_raw
                         __init__ in
  let evs := news (_execute_body late_redirect_class sample_request
                                 sample_raw) __init__ in
  (before_finish late_redirect_class sample_request sample_raw hb).1
    = Returned tt /\
  _finished ha = true /\ _redirection ha = Some (["/late"], []) /\
  entered before evs = ["m1"; "m2"] /\ completed after evs = ["m2"; "m1"] /\
  (_execute_body late_redirect_class sample_request sample_raw __init__).1
    = Raised (Exception "Cannot redirect after headers have been written") /\
  entered after_finish evs = [] /\
  entered after_finish evs <> reverse (entered before evs).
Proof. vm_compute. repeat split; discriminate. Qed.

(** C8, amended.  When the [after] loop has ended with the response
    already finalized and no redirect pending, the finish step does
    nothing (nothing is sent, [do_finish] is not called, the handler is
    left as it is), and the [after_finish] loop runs over the entered
    middleware in reverse entry order: the first stage is entered, and
    each further one once the stage before it has completed; when the call
    runs to its end, all of them were entered and completed. *)
Theorem C8_finalize_skipped_when_already_finished cls req raw h :
  _called_once h = false ->
  let hb := entry_state h in
  let ha := finish_state cls req raw h in
  let evs := news (_execute_body cls req raw) h in
  let E := reverse (entered before evs) in
  let c := done_count (executed_middleware ha) (stage_step after_finish) ha in
  (before_finish cls req raw hb).1 = Returned tt ->
  _finished ha = true ->
  _redirection ha = None ->
  finish_step ha = (Returned tt, ha) /\
  _execute_body cls req raw h = stage_loop after_finish ha /\
  map mw_name (executed_middleware ha) = E /\
  news finish_step ha = [] /\
  entered after_finish evs = take (S c) E /\
  completed after_finish evs = take c E /\
  ((_execute_body cls req raw h).1 = Returned tt ->
   entered after_finish evs = E /\ completed after_finish evs = E).
Proof.
  intros Hc hb ha evs E c Hr Hf Hp.
  destruct (dispatch_parts cls req raw h Hc)
    as (tf & tz & cz & Hev & _ & _ & _ & _ & _ & _ & _ & _ & _ & _ & Hfin
        & Hret).
  fold hb ha evs E in Hev, Hfin, Hret.
  destruct (Hfin Hr) as (_ & _ & Hex & Hm).
  assert (finish_error ha = None) as Hfe.
  { unfold finish_error. by rewrite Hp. }
  assert (finish_step ha = (Returned tt, ha)) as Hfs.
  { rewrite finish_step_spec, Hfe, Hf, Hp. unfold finish_sends. simpl.
    by rewrite add_logs_nil. }
  rewrite Hfe, Hfs, Hp, Hf in Hm. cbn [snd] in Hm.
  destruct Hm as (-> & Hbody & Hcz & Hez & Hcz').
  fold c in Hcz. subst cz.
  split; [exact Hfs|]. split; [exact Hbody|]. split; [exact Hex|].
  split; [|by split].
  unfold news. rewrite Hfs. apply drop_all.
Qed.

(** The theorem at a handler whose action finalizes the response. *)
Lemma C8_finalize_skipped_witness :
  let ha := finish_state finishing_class sample_request sample_raw __init__ in
  let evs := news (_execute_body finishing_class sample_request sample_raw)
                  __init__ in
  finish_step ha = (Returned tt, ha) /\
  entered before evs = ["m1"; "m2"] /\
  entered after_finish evs = ["m2"; "m1"] /\
  completed after_finish evs = ["m2"; "m1"] /\
  finalized evs = 1.
Proof.
  destruct (C8_finalize_skipped_when_already_finished finishing_class
              sample_request sample_raw __init__ eq_refl eq_refl eq_refl
              eq_refl) as (Hfs & _ & _ & _ & _ & _ & Hall).
  destruct (Hall eq_refl) as [Hez Hcz].
  split; [exact Hfs|]. split; [reflexivity|].
  split; [exact Hez|]. split; [exact Hcz | reflexivity].
Defined.

(** ** C4: an interrupt raised in a [before] stage *)

(** C4 at a handler with three middleware whose second [before] stage
    waits for the event loop and raises the interrupt once it is resumed.
    The exception is raised from the event loop, not in the frame of
    [_execute]: it passes the finished runner of the stage and reaches
    [_stack_context_handle_exception]; the [except InterruptRequest]
    clause is not reached and [_execute] is never resumed.  The first two
    middleware were entered, the action is not called, and no [after] and
    no [after_finish] stage runs, against the documentation of
    [InterruptRequest].  When the stage raises in its own frame (the
    sample handler), the pipeline does what the documentation says. *)
Theorem C4_interrupt_after_suspension_runs_no_after_stage :
  let run := _execute waiting_class sample_request sample_raw None in
  let evs := news run __init__ in
  let run' := _execute sample_class sample_request sample_raw None in
  let evs' := news run' __init__ in
  (run __init__).1 = Stalled /\
  entered before evs = ["m1"; "m2"] /\ actions evs = [] /\
  entered after evs = [] /\ entered after_finish evs = [] /\
  finalized evs = 0 /\
  last evs = Some (EvHandleException InterruptRequest) /\
  (run' __init__).1 = Returned tt /\
  entered before evs' = ["m1"; "m2"] /\ actions evs' = [] /\
  entered after evs' = ["m2"; "m1"] /\ completed after evs' = ["m2"; "m1"] /\
  entered after_finish evs' = ["m2"; "m1"] /\
  completed after_finish evs' = ["m2"; "m1"].
Proof. vm_compute. by repeat split. Qed.
